(** * Invoices: billing-period ledger of waldur-mastermind

    A shallow embedding of [nodeconductor_assembly_waldur/invoices/models.py]
    (classes [Invoice], [InvoiceItem], [OfferingItem], [OpenStackItem]) and of
    the downtime registry and compensation engine exercised by
    [waldur_mastermind/invoices/tests/test_downtime.py].

    Conventions.
    - A [datetime] is a number of microseconds on one fixed reference
      time line (Django hands the models timezone-aware values of a single
      zone); a [timedelta] is a signed number of microseconds, so that
      [timedelta.days] is floor division by the length of a day, as in
      Python's normalised representation.  The representable range of
      Python's [datetime] (years 1 to 9999) is not modelled.
    - A [Decimal] is the rational number it denotes.  Its arithmetic is
      that of Python's default decimal context: each sum, product and
      quotient is the exact result rounded to 28 significant digits, ties
      to the even digit (module [Dec]).  The exponent limits of the context
      and the difference between equal numbers written with different
      exponents are not modelled.
    - The ORM is reduced to what the models use: tables are lists of rows
      carrying their primary key, [save] writes the listed columns of the
      row with the object's key, a reverse relation selects the rows whose
      foreign key is the owner's key.  Where no row carries the key,
      Django's [save] with [update_fields] raises [DatabaseError] after
      the object has been assigned: [set_created] has this exit; the
      saves of the items write nothing there, and their exit is not
      modelled. *)

From Stdlib Require Import ZArith QArith Qcanon Qround Qpower Lia List.
From stdpp Require Import base option list gmap strings.

Open Scope Z_scope.

(** ** Dates and times *)

Module Datetime.

Definition datetime := Z.
Definition timedelta := Z.
Definition date := Z.

Definition us_per_second : Z := 1000000.
Definition us_per_day : Z := 86400 * us_per_second.

(** [datetime.timedelta(days=n)] *)
Definition timedelta_of_days (n : Z) : timedelta := n * us_per_day.

(** [td.days] of a normalised timedelta: the floor of the day count. *)
Definition days (td : timedelta) : Z := td / us_per_day.

(** [dt.date()], as the ordinal of the day. *)
Definition date_of (dt : datetime) : date := dt / us_per_day.

(** Wall-clock fields of a datetime within its day. *)
Definition time_of_day (dt : datetime) : Z := dt mod us_per_day.
Definition hour (dt : datetime) : Z := time_of_day dt / (3600 * us_per_second).
Definition minute (dt : datetime) : Z := (time_of_day dt / (60 * us_per_second)) mod 60.
Definition second (dt : datetime) : Z := (time_of_day dt / us_per_second) mod 60.
Definition microsecond (dt : datetime) : Z := dt mod us_per_second.

(** [dt.replace(hour=h, minute=m, second=s)]: the date and the microsecond
    are kept, the three named fields are overwritten. *)
Definition replace_hms (h m s : Z) (dt : datetime) : datetime :=
  date_of dt * us_per_day + ((h * 60 + m) * 60 + s) * us_per_second + microsecond dt.

(** Days since 1970-01-01 of a proleptic Gregorian calendar date. *)
Definition days_from_civil (y m d : Z) : Z :=
  let y' := if m <=? 2 then y - 1 else y in
  let era := y' / 400 in
  let yoe := y' - era * 400 in
  let mp := (m + 9) mod 12 in
  let doy := (153 * mp + 2) / 5 + d - 1 in
  let doe := yoe * 365 + yoe / 4 - yoe / 100 + doy in
  era * 146097 + doe - 719468.

(** Midnight of a calendar date, what the tests' [parse_datetime] yields. *)
Definition midnight (y m d : Z) : datetime := days_from_civil y m d * us_per_day.

End Datetime.
Import Datetime.

(** ** Decimals *)

(** A decimal, by the number it denotes; its arithmetic is in [Dec]. *)
Abbreviation Decimal := Qc.

(** [Decimal(n)] of an integer, as Python converts the integer operand
    of a mixed operation: exactly. *)
Definition Decimal_of_int (n : Z) : Decimal := Q2Qc (inject_Z n).

(** The arithmetic of the default context: [prec = 28],
    [rounding = ROUND_HALF_EVEN]. *)
Module Dec.

Definition prec : Z := 28.

(** The number of decimal digits of a positive integer. *)
Fixpoint ndigits_fuel (fuel : nat) (n : Z) : Z :=
  match fuel with
  | O => 0
  | S fuel => if n <? 10 then 1 else 1 + ndigits_fuel fuel (n / 10)
  end.

Definition ndigits (n : Z) : Z := ndigits_fuel (S (Z.to_nat (Z.log2 n))) n.

Definition pow10 (z : Z) : Q := (inject_Z 10 ^ z)%Q.

(** The exponent of the leading digit of a positive number, what Python
    calls its adjusted exponent: the [e] with [10^e <= q < 10^(e+1)]. *)
Definition adjusted (q : Q) : Z :=
  let g := ndigits (Qnum q) - ndigits (Zpos (Qden q)) in
  if Qle_bool (pow10 g) q then g else g - 1.

(** The nearest integer, a tie going to the even one. *)
Definition half_even (y : Q) : Z :=
  let f := Qfloor y in
  match (y - inject_Z f ?= 1 # 2)%Q with
  | Lt => f
  | Gt => f + 1
  | Eq => if Z.even f then f else f + 1
  end.

(** A positive number cut to [prec] significant digits. *)
Definition round_pos (q : Q) : Q :=
  let s := adjusted q - (prec - 1) in
  (inject_Z (half_even (q / pow10 s)) * pow10 s)%Q.

Definition round_Q (q : Q) : Q :=
  match (q ?= 0)%Q with
  | Eq => 0%Q
  | Gt => round_pos q
  | Lt => (- round_pos (- q))%Q
  end.

(** What the context does to the exact result of an operation. *)
Definition round (q : Decimal) : Decimal := Q2Qc (round_Q q).

(** [a + b], [a * b] and [a / b] on decimals. *)
Definition add (a b : Decimal) : Decimal := round (a + b).
Definition mul (a b : Decimal) : Decimal := round (a * b).
Definition div (a b : Decimal) : Decimal := round (a / b).

(** A number the context keeps as it is: an integer coefficient of at
    most [prec] digits times a power of ten. *)
Definition fits (q : Decimal) : Prop :=
  ∃ c k : Z, Z.abs c < 10 ^ prec ∧ (q == inject_Z c * pow10 k)%Q.

End Dec.

(** ** Exceptions and outcomes *)

Inductive exn :=
  | IncorrectStateException
  | DoesNotExist
  | DatabaseError
  | ValidationError.

Inductive result (A : Type) :=
  | Ok (a : A)
  | Raise (e : exn).
Arguments Ok {A} a.
Arguments Raise {A} e.

#[global] Instance result_ret : MRet result := λ A a, Ok a.
#[global] Instance result_bind : MBind result := λ A B k r,
  match r with
  | Ok a => k a
  | Raise e => Raise e
  end.

(** ** The data model *)

Module States.
Inductive t := PENDING | CREATED | PAID | CANCELED.
#[global] Instance eq_dec : EqDecision t.
Proof. solve_decision. Defined.
End States.

Record Invoice := mkInvoice {
  invoice_id : Z;
  month : Z;
  year : Z;
  state : States.t;
  customer : Z;
  tax_percent : Decimal;
  invoice_date : option date;
}.

(** The live objects an item may point to.  Only the attributes the
    models read are kept. *)
Record Project := mkProject { project_name_of : string }.
Record Offering := mkOffering {
  offering_project : Project;
  offering_type : string;
  offering_price : Decimal;
}.
Record Tenant := mkTenant { tenant_name : string; tenant_uuid_hex : string }.
Record Template := mkTemplate { template_name : string; template_uuid_hex : string }.
Record OpenStackPackage := mkPackage {
  package_id : Z;
  tenant : Tenant;
  template : Template;
}.

(** The columns declared by the abstract class [InvoiceItem]. *)
Record InvoiceItem := mkInvoiceItem {
  daily_price : Decimal;
  start : datetime;
  end_ : datetime;
  project_name : string;
  project_uuid : string;
}.

Record OfferingItem := mkOfferingItem {
  offering_item_id : Z;
  offering_item_base : InvoiceItem;
  offering_item_invoice : Z;
  offering : option Offering;
  offering_details : gmap string string;
}.

Record OpenStackItem := mkOpenStackItem {
  openstack_item_id : Z;
  openstack_item_base : InvoiceItem;
  openstack_item_invoice : Z;
  package : option OpenStackPackage;
  package_details : gmap string string;
}.

Record DB := mkDB {
  invoice_table : list Invoice;
  openstack_item_table : list OpenStackItem;
  offering_item_table : list OfferingItem;
}.

(** Field assignments: [self.f = v] on a Python object. *)
Definition set_state (v : States.t) (self : Invoice) : Invoice :=
  mkInvoice (invoice_id self) (month self) (year self) v (customer self)
            (tax_percent self) (invoice_date self).
Definition set_invoice_date (v : option date) (self : Invoice) : Invoice :=
  mkInvoice (invoice_id self) (month self) (year self) (state self) (customer self)
            (tax_percent self) v.
Definition set_end (v : datetime) (b : InvoiceItem) : InvoiceItem :=
  mkInvoiceItem (daily_price b) (start b) v (project_name b) (project_uuid b).
Definition set_offering_item_base (b : InvoiceItem) (self : OfferingItem) : OfferingItem :=
  mkOfferingItem (offering_item_id self) b (offering_item_invoice self)
                 (offering self) (offering_details self).
Definition set_offering_details (d : gmap string string) (self : OfferingItem) : OfferingItem :=
  mkOfferingItem (offering_item_id self) (offering_item_base self)
                 (offering_item_invoice self) (offering self) d.
Definition set_openstack_item_base (b : InvoiceItem) (self : OpenStackItem) : OpenStackItem :=
  mkOpenStackItem (openstack_item_id self) b (openstack_item_invoice self)
                  (package self) (package_details self).
Definition set_package_details (d : gmap string string) (self : OpenStackItem) : OpenStackItem :=
  mkOpenStackItem (openstack_item_id self) (openstack_item_base self)
                  (openstack_item_invoice self) (package self) d.
Definition set_package (p : option OpenStackPackage) (self : OpenStackItem) : OpenStackItem :=
  mkOpenStackItem (openstack_item_id self) (openstack_item_base self)
                  (openstack_item_invoice self) p (package_details self).
Definition set_invoice_table (t : list Invoice) (db : DB) : DB :=
  mkDB t (openstack_item_table db) (offering_item_table db).
Definition set_openstack_item_table (t : list OpenStackItem) (db : DB) : DB :=
  mkDB (invoice_table db) t (offering_item_table db).
Definition set_offering_item_table (t : list OfferingItem) (db : DB) : DB :=
  mkDB (invoice_table db) (openstack_item_table db) t.

(** ** The persistence layer, as far as the models use it *)

Module ORM.

(** [UPDATE table SET ... WHERE pk = key]: the row with the given key is
    rewritten by [upd], every other row is left as it is. *)
Definition update_row {R} (pk : R → Z) (key : Z) (upd : R → R) (tbl : list R) : list R :=
  (λ r, if decide (pk r = key) then upd r else r) <$> tbl.

(** [obj.save()] with no [update_fields]: all columns of the row are
    written; a row that does not exist yet is inserted. *)
Definition upsert_row {R} (pk : R → Z) (obj : R) (tbl : list R) : list R :=
  if decide (Exists (λ r, pk r = pk obj) tbl)
  then update_row pk (pk obj) (λ _, obj) tbl
  else tbl ++ [obj].

(** [obj.save(update_fields=[...])], where the outcome is followed: the
    update is run, and Django raises [DatabaseError] when it did not
    affect any row. *)
Definition save_fields {R} (pk : R → Z) (key : Z) (upd : R → R) (tbl : list R)
    : result unit * list R :=
  (if decide (Exists (λ r, pk r = key) tbl) then Ok () else Raise DatabaseError,
   update_row pk key upd tbl).


End ORM.

(** [invoice.openstack_items] and [invoice.offering_items]: the reverse
    side of the items' [invoice] foreign keys. *)
Definition openstack_items (self : Invoice) (db : DB) : list OpenStackItem :=
  filter (λ it, openstack_item_invoice it = invoice_id self) (openstack_item_table db).
Definition offering_items (self : Invoice) (db : DB) : list OfferingItem :=
  filter (λ it, offering_item_invoice it = invoice_id self) (offering_item_table db).

(** ** [utils.get_full_days] *)

(** Modelled from the spec: [utils.get_full_days] is called by
    [InvoiceItem.usage_days] but [invoices/utils.py] is not among the
    sources.  Section 4.1 describes it as the number of complete 24-hour
    days between two timestamps, truncating any partial day, and zero if
    end <= start. *)
Definition get_full_days (start_ end' : datetime) : Z :=
  if end' <=? start_ then 0 else days (end' - start_).

(** ** Invoice items *)

(** What a concrete item class hands to the methods it inherits from the
    abstract class [InvoiceItem]: its inherited columns, its [invoice]
    foreign key, its override of [freeze] (the abstract method only raises
    [NotImplementedError]; both concrete classes override it), and the two
    ways the inherited and own methods save it. *)
Class ItemClass (I : Type) := {
  base : I → InvoiceItem;
  set_base : InvoiceItem → I → I;
  invoice_fk : I → Z;
  freeze : I → DB → I * DB;
  save_end : I → DB → DB;
  save : I → DB → DB;
}.

Section InvoiceItemMethods.
Context {I : Type} `{ItemClass I}.

Definition usage_days (self : I) : Z :=
  let full_days := get_full_days (start (base self)) (end_ (base self)) in
  full_days.

Definition price (self : I) : Decimal :=
  Dec.mul (daily_price (base self)) (Decimal_of_int (usage_days self)).



(** [terminate(self, end=None)]; [end or timezone.now()] picks the
    argument whenever one is given, a datetime being always true. *)
Definition terminate (end' : option datetime) (now : datetime)
    (self : I) (db : DB) : I * DB :=
  let '(self, db) := freeze self db in
  let self := set_base (set_end (default now end') (base self)) self in
  (self, save_end self db).
End InvoiceItemMethods.

(** *** [OfferingItem] *)

Definition OfferingItem_save (fields : OfferingItem → OfferingItem → OfferingItem)
    (self : OfferingItem) (db : DB) : DB :=
  set_offering_item_table
    (ORM.update_row offering_item_id (offering_item_id self) (fields self)
       (offering_item_table db)) db.

Definition OfferingItem_freeze (self : OfferingItem) (db : DB) : OfferingItem * DB :=
  match offering self with
  | Some o =>
      let d := <["project_name" := project_name_of (offering_project o)]>
                 (offering_details self) in
      let d := <["offering_type" := offering_type o]> d in
      let self := set_offering_details d self in
      (self, OfferingItem_save (λ obj, set_offering_details (offering_details obj)) self db)
  | None => (self, db)
  end.

#[global] Instance OfferingItem_class : ItemClass OfferingItem := {
  base := offering_item_base;
  set_base := set_offering_item_base;
  invoice_fk := offering_item_invoice;
  freeze := OfferingItem_freeze;
  save_end := OfferingItem_save
    (λ obj row, set_offering_item_base (set_end (end_ (offering_item_base obj))
                                          (offering_item_base row)) row);
  save := λ self db,
    set_offering_item_table (ORM.upsert_row offering_item_id self (offering_item_table db)) db;
}.

(** *** [OpenStackItem] *)

Definition OpenStackItem_save (fields : OpenStackItem → OpenStackItem → OpenStackItem)
    (self : OpenStackItem) (db : DB) : DB :=
  set_openstack_item_table
    (ORM.update_row openstack_item_id (openstack_item_id self) (fields self)
       (openstack_item_table db)) db.

Definition OpenStackItem_freeze (self : OpenStackItem) (db : DB) : OpenStackItem * DB :=
  match package self with
  | Some p =>
      let d := <["tenant_name" := tenant_name (tenant p)]> (package_details self) in
      let d := <["tenant_uuid" := tenant_uuid_hex (tenant p)]> d in
      let d := <["template_name" := template_name (template p)]> d in
      let d := <["template_uuid" := template_uuid_hex (template p)]> d in
      let self := set_package_details d self in
      (self, OpenStackItem_save (λ obj, set_package_details (package_details obj)) self db)
  | None => (self, db)
  end.

#[global] Instance OpenStackItem_class : ItemClass OpenStackItem := {
  base := openstack_item_base;
  set_base := set_openstack_item_base;
  invoice_fk := openstack_item_invoice;
  freeze := OpenStackItem_freeze;
  save_end := OpenStackItem_save
    (λ obj row, set_openstack_item_base (set_end (end_ (openstack_item_base obj))
                                           (openstack_item_base row)) row);
  save := λ self db,
    set_openstack_item_table (ORM.upsert_row openstack_item_id self (openstack_item_table db)) db;
}.

(** [shift_backward(self, days=1)] *)
Definition shift_backward (days_ : Z) (self : OpenStackItem) (db : DB) : OpenStackItem * DB :=
  let b := openstack_item_base self in
  let end' :=
    if decide (days (end_ b - start b) > days_)
    then end_ b - timedelta_of_days 1
    else start b in
  let self := set_openstack_item_base (set_end end' b) self in
  (self, save self db).

Definition extend_to_the_end_of_the_day (self : OpenStackItem) (db : DB) : OpenStackItem * DB :=
  let b := openstack_item_base self in
  let self := set_openstack_item_base (set_end (replace_hms 23 59 59 (end_ b)) b) self in
  (self, save self db).

(** ** Invoices *)

(** [sum(iterable)]: Python adds from the left, starting at 0. *)
Definition sum (xs : list Decimal) : Decimal := fold_left Dec.add xs 0%Qc.

(** An element of [package_items + offering_items], and the [price]
    property dispatched on its class. *)
Definition item_price (item : OpenStackItem + OfferingItem) : Decimal :=
  match item with
  | inl i => price i
  | inr i => price i
  end.

Definition Invoice_price (self : Invoice) (db : DB) : Decimal :=
  let package_items := openstack_items self db in
  let offering_items_ := offering_items self db in
  sum (item_price <$> (inl <$> package_items) ++ (inr <$> offering_items_)).

Definition Invoice_tax (self : Invoice) (db : DB) : Decimal :=
  Dec.div (Dec.mul (Invoice_price self db) (tax_percent self)) (Decimal_of_int 100).

Definition Invoice_total (self : Invoice) (db : DB) : Decimal :=
  Dec.add (Invoice_price self db) (Invoice_tax self db).

(** [self.save(update_fields=['state', 'invoice_date'])] *)
Definition Invoice_save_state_invoice_date (self : Invoice) (db : DB)
    : result unit * DB :=
  let saved :=
    ORM.save_fields invoice_id (invoice_id self)
      (λ row, set_invoice_date (invoice_date self) (set_state (state self) row))
      (invoice_table db) in
  (fst saved, set_invoice_table (snd saved) db).

(** [set_created(self)], with the object and the database threaded
    through: an exception leaves with the state reached so far. *)
Definition set_created (now : datetime) (self : Invoice) (db : DB)
    : result unit * (Invoice * DB) :=
  if decide (state self ≠ States.PENDING)
  then (Raise IncorrectStateException, (self, db))
  else
    let self := set_state States.CREATED self in
    let self := set_invoice_date (Some (date_of now)) self in
    let saved := Invoice_save_state_invoice_date self db in
    (fst saved, (self, snd saved)).

(** [Invoice.freeze(self)]: the two loops over the related items. *)
Definition Invoice_freeze (self : Invoice) (db : DB) : DB :=
  let db := fold_left (λ db (item : OpenStackItem), snd (freeze item db))
                      (openstack_items self db) db in
  fold_left (λ db (item : OfferingItem), snd (freeze item db))
            (offering_items self db) db.

(** ** Further methods of the models *)

Definition set_offering (o : option Offering) (self : OfferingItem) : OfferingItem :=
  mkOfferingItem (offering_item_id self) (offering_item_base self)
                 (offering_item_invoice self) o (offering_details self).

(** *** The [name] properties *)

(** What evaluating a [name] can raise: a subscript on a missing key, or
    an attribute read on [None]. *)
Inductive name_error :=
  | KeyError (key : string)
  | AttributeError.

Inductive name_result :=
  | Name (s : string)
  | NameRaise (e : name_error).

(** ['%s (%s)' % (a, b)] *)
Definition format_name (a b : string) : string := a +:+ " (" +:+ b +:+ ")".

(** [%s] applied to the result of [dict.get]: a missing key gives [None],
    which prints as its name. *)
Definition str_of_get (v : option string) : string := default "None" v.

(** [OfferingItem.name]: the details are read as soon as the dict is not
    empty, by subscript; otherwise the live offering is read. *)
Definition OfferingItem_name (self : OfferingItem) : name_result :=
  if decide (offering_details self ≠ ∅) then
    match offering_details self !! "project_name" with
    | None => NameRaise (KeyError "project_name")
    | Some project_name_ =>
        match offering_details self !! "offering_type" with
        | None => NameRaise (KeyError "offering_type")
        | Some offering_type_ => Name (format_name project_name_ offering_type_)
        end
    end
  else
    match offering self with
    | Some o => Name (format_name (project_name_of (offering_project o)) (offering_type o))
    | None => NameRaise AttributeError
    end.

(** [OpenStackItem.name]: the live package is read when there is one;
    otherwise the details are read with [get]. *)
Definition OpenStackItem_name (self : OpenStackItem) : string :=
  match package self with
  | Some p => format_name (tenant_name (tenant p)) (template_name (template p))
  | None =>
      format_name (str_of_get (package_details self !! "tenant_name"))
                  (str_of_get (package_details self !! "template_name"))
  end.

(** *** [Invoice.due_date] and [Invoice.register_offering] *)

(** [Model.objects.create(...)]: the row is appended under a key the
    table has not used, one past the largest. *)
Definition auto_pk {R} (pk : R → Z) (tbl : list R) : Z :=
  1 + foldr Z.max 0 (pk <$> tbl).

Section InvoiceSettings.
(** [settings.INVOICES['PAYMENT_INTERVAL']], a number of days, and
    [core_utils.month_end], which belongs to the nodeconductor core
    library. *)
Variable PAYMENT_INTERVAL : Z.
Variable month_end : datetime → datetime.

(** [due_date]: a date is always true, so the test is on [None] alone;
    without a date the property returns [None]. *)
Definition due_date (self : Invoice) : option date :=
  match invoice_date self with
  | Some d => Some (d + PAYMENT_INTERVAL)
  | None => None
  end.

(** [register_offering(self, offering, start=None)]: the columns not
    named in the call take their defaults. *)
Definition register_offering (offering_ : Offering) (start_ : option datetime)
    (now : datetime) (self : Invoice) (db : DB) : DB :=
  let start_ := default now start_ in
  let end' := month_end start_ in
  set_offering_item_table
    (offering_item_table db ++
       [mkOfferingItem (auto_pk offering_item_id (offering_item_table db))
          (mkInvoiceItem (offering_price offering_) start_ end' "" "")
          (invoice_id self) (Some offering_) ∅]) db.
End InvoiceSettings.

(** Primary keys identify the rows of the item tables. *)
Definition unique_keys (db : DB) : Prop :=
  NoDup (openstack_item_id <$> openstack_item_table db) ∧
  NoDup (offering_item_id <$> offering_item_table db).

(** ** Downtime registry and compensation engine

    [ServiceDowntime], [GenericInvoiceItem] and the handlers that react to
    a reported downtime live in [waldur_mastermind/invoices/models.py] and
    [handlers.py], which are not among the sources; only their tests are.
    The definitions of this module follow the specification, sections 3,
    4.1, 4.3 and 4.4. *)

Module Downtime.

(** Modelled from the spec: [ServiceDowntime] is missing from the sources;
    section 3 gives it a reference to the billed package, a start and an
    end timestamp. *)
Record ServiceDowntime := mkDowntime {
  downtime_package : Z;
  downtime_start : datetime;
  downtime_end : datetime;
}.

#[global] Instance ServiceDowntime_eq_dec : EqDecision ServiceDowntime.
Proof. solve_decision. Defined.

(** Modelled from the spec: [GenericInvoiceItem] is missing from the
    sources; section 3 describes the compensation entry as an invoice item
    on the affected item's invoice with no live [scope] reference. *)
Record GenericInvoiceItem := mkGenericItem {
  generic_item_base : InvoiceItem;
  generic_item_invoice : Z;
  scope : option Z;
}.

(** Modelled from the spec: the policy settings of section 4.3 (maximum
    retroactive offset, maximum downtime duration) are missing from the
    sources. *)
Record Settings := mkSettings {
  max_offset : timedelta;
  max_duration : timedelta;
}.

(** Modelled from the spec: the state the registry and the engine act on,
    the invoice tables together with the reported downtimes and the
    compensation entries (section 6, persisted state layout). *)
Record Ledger := mkLedger {
  ledger_db : DB;
  downtimes : list ServiceDowntime;
  generic_items : list GenericInvoiceItem;
}.

(** Modelled from the spec: [intersect] of section 4.1 is missing from the
    sources: the overlapping sub-interval, or no overlap if
    a_end <= b_start or b_end <= a_start. *)
Definition intersect (a_start a_end b_start b_end : datetime)
    : option (datetime * datetime) :=
  if decide (a_end ≤ b_start ∨ b_end ≤ a_start) then None
  else Some (Z.max a_start b_start, Z.min a_end b_end).

(** Modelled from the spec: the overlap test of rule 4 in section 4.3,
    existing.start < new.end and new.start < existing.end, between
    downtimes of the same package. *)
Definition overlaps (existing new : ServiceDowntime) : Prop :=
  downtime_package existing = downtime_package new ∧
  downtime_start existing < downtime_end new ∧
  downtime_start new < downtime_end existing.

#[global] Instance overlaps_dec existing new : Decision (overlaps existing new).
Proof. unfold overlaps. apply _. Defined.

(** Modelled from the spec: the validation of [report] in section 4.3 is
    missing from the sources; four rules checked in order, the first
    failure wins. *)
Definition clean (cfg : Settings) (now : datetime) (registry : list ServiceDowntime)
    (new : ServiceDowntime) : result unit :=
  if decide (¬ downtime_start new < downtime_end new) then Raise ValidationError
  else if decide (now - downtime_start new > max_offset cfg) then Raise ValidationError
  else if decide (downtime_end new - downtime_start new > max_duration cfg)
       then Raise ValidationError
  else if decide (Exists (λ existing, overlaps existing new) registry)
       then Raise ValidationError
  else Ok ().

(** Modelled from the spec: an item belongs to the resource when its own
    [package] reference is the package of the downtime; a cleared
    reference belongs to no package (section 4.4, edge-case policy). *)
Definition of_package (pkg : Z) (item : OpenStackItem) : Prop :=
  package_id <$> package item = Some pkg.

(** Modelled from the spec: the window of the item and the downtime have a
    stretch in common, the condition under which [intersect] of section
    4.1 finds an overlap. *)
Definition meets (d : ServiceDowntime) (item : OpenStackItem) : Prop :=
  start (openstack_item_base item) < downtime_end d ∧
  downtime_start d < end_ (openstack_item_base item).

(** Modelled from the spec: the window of the item brackets the current
    moment. *)
Definition brackets (now : datetime) (item : OpenStackItem) : Prop :=
  start (openstack_item_base item) ≤ now ≤ end_ (openstack_item_base item).

#[global] Instance of_package_dec pkg item : Decision (of_package pkg item).
Proof. unfold of_package. apply _. Defined.

#[global] Instance meets_dec d item : Decision (meets d item).
Proof. unfold meets. apply _. Defined.

#[global] Instance brackets_dec now item : Decision (brackets now item).
Proof. unfold brackets. apply _. Defined.

(** Modelled from the spec: step 1 of section 4.4, the current invoice
    item of the resource: among the items of the package, the one whose
    window brackets the downtime or the current moment.  The window
    brackets the downtime when the two meet: in the adjustment tests the
    item of October 11 to 15 is the one compensated for a downtime of
    October 1 to 20 reported on November 1, though it contains neither the
    downtime nor the day of the report.  An item that meets the downtime is
    taken before one that only brackets the current moment, which step 3
    would turn down. *)
Definition locate_item (now : datetime) (d : ServiceDowntime) (db : DB)
    : option OpenStackItem :=
  let items := filter (of_package (downtime_package d)) (openstack_item_table db) in
  match List.find (λ item, bool_decide (meets d item)) items with
  | Some item => Some item
  | None => List.find (λ item, bool_decide (brackets now item)) items
  end.

(** Modelled from the spec: steps 2 to 4 of section 4.4, the entry to
    create for a downtime, if any. *)
Definition compensation (now : datetime) (d : ServiceDowntime) (db : DB)
    : option GenericInvoiceItem :=
  item ← locate_item now d db;
  let b := openstack_item_base item in
  '(s, e) ← intersect (downtime_start d) (downtime_end d) (start b) (end_ b);
  Some (mkGenericItem
          (mkInvoiceItem (- daily_price b)%Qc s e (project_name b) (project_uuid b))
          (openstack_item_invoice item) None).

(** Modelled from the spec: [report] of section 4.3 followed by the
    engine's reaction of section 4.4; a validation failure is detected
    before any write. *)
Definition report (cfg : Settings) (now : datetime) (d : ServiceDowntime)
    (led : Ledger) : result unit * Ledger :=
  match clean cfg now (downtimes led) d with
  | Raise e => (Raise e, led)
  | Ok _ =>
      (Ok (), mkLedger (ledger_db led) (downtimes led ++ [d])
                (generic_items led ++ option_list (compensation now d (ledger_db led))))
  end.

(** Modelled from the spec: the entries the removal of a downtime
    retracts, section 4.4: those whose window and invoice are exactly those
    of the downtime's compensation. *)
Definition retracted (c : option GenericInvoiceItem) (g : GenericInvoiceItem) : bool :=
  match c with
  | Some c =>
      bool_decide (start (generic_item_base g) = start (generic_item_base c)) &&
      bool_decide (end_ (generic_item_base g) = end_ (generic_item_base c)) &&
      bool_decide (generic_item_invoice g = generic_item_invoice c)
  | None => false
  end.

(** Modelled from the spec: [remove] of section 4.3, which deletes the
    record and has the engine retract its effect. *)
Definition remove (now : datetime) (d : ServiceDowntime) (led : Ledger) : Ledger :=
  mkLedger (ledger_db led)
           (filter (λ x, x ≠ d) (downtimes led))
           (filter (λ g, retracted (compensation now d (ledger_db led)) g = false)
                   (generic_items led)).

(** Modelled from the spec: the ledgers the registry can be in, starting
    with no downtime on record; the invoice tables change under it through
    the operations of the item ledger. *)
Inductive reachable (cfg : Settings) : Ledger → Prop :=
  | reachable_init db : reachable cfg (mkLedger db [] [])
  | reachable_report now d led led' :
      reachable cfg led → report cfg now d led = (Ok (), led') → reachable cfg led'
  | reachable_remove now d led :
      reachable cfg led → reachable cfg (remove now d led)
  | reachable_db db led :
      reachable cfg led →
      reachable cfg (mkLedger db (downtimes led) (generic_items led)).

End Downtime.

(** ** Invariants of the data model *)

(** The window of an item is well formed and its price per day is not
    negative. *)
Definition well_formed {I : Type} `{ItemClass I} (self : I) : Prop :=
  start (base self) ≤ end_ (base self) ∧ (0 ≤ daily_price (base self))%Qc.

(** An item is frozen when its details hold what its live reference
    shows; an item without a live reference has nothing to record. *)
Definition OpenStackItem_frozen (self : OpenStackItem) : Prop :=
  ∀ p, package self = Some p →
    package_details self !! "tenant_name" = Some (tenant_name (tenant p)) ∧
    package_details self !! "tenant_uuid" = Some (tenant_uuid_hex (tenant p)) ∧
    package_details self !! "template_name" = Some (template_name (template p)) ∧
    package_details self !! "template_uuid" = Some (template_uuid_hex (template p)).

Definition OfferingItem_frozen (self : OfferingItem) : Prop :=
  ∀ o, offering self = Some o →
    offering_details self !! "project_name" = Some (project_name_of (offering_project o)) ∧
    offering_details self !! "offering_type" = Some (offering_type o).

(** No two distinct records of the registry are downtimes of one package
    with overlapping windows. *)
Definition no_overlapping_pair (registry : list Downtime.ServiceDowntime) : Prop :=
  ∀ i j a b, i ≠ j → registry !! i = Some a → registry !! j = Some b →
    ¬ Downtime.overlaps a b.

(** The same, by recursion on the registry: each record is clear of all
    the records after it. *)
Fixpoint pairwise_disjoint (registry : list Downtime.ServiceDowntime) : Prop :=
  match registry with
  | [] => True
  | d :: registry => Forall (λ e, ¬ Downtime.overlaps d e) registry ∧ pairwise_disjoint registry
  end.

(** ** Fixtures

    The objects of the tests' [PackageFixture], as far as the models read
    them: one customer invoice for October 2018 holding one package item
    that spans October 11 to 15, and one offering item. *)

Module Fixture.
Import Downtime.

Definition the_package : OpenStackPackage :=
  mkPackage 1 (mkTenant "tenant" "a1") (mkTemplate "template" "b2").

Definition the_offering : Offering :=
  mkOffering (mkProject "project") "custom_vpc" (Decimal_of_int 10).

Definition the_invoice : Invoice :=
  mkInvoice 1 10 2018 States.PENDING 1 (Decimal_of_int 20) None.

Definition the_item : OpenStackItem :=
  mkOpenStackItem 1
    (mkInvoiceItem (Decimal_of_int 3) (midnight 2018 10 11) (midnight 2018 10 15)
                   "project" "c3")
    1 (Some the_package) ∅.

Definition the_offering_item : OfferingItem :=
  mkOfferingItem 1
    (mkInvoiceItem (Decimal_of_int 10) (midnight 2018 10 1) (midnight 2018 10 31)
                   "project" "c3")
    1 (Some the_offering) ∅.

(** An item of the same package for an earlier stretch, September 11 to
    15. *)
Definition the_earlier_item : OpenStackItem :=
  mkOpenStackItem 2
    (mkInvoiceItem (Decimal_of_int 3) (midnight 2018 9 11) (midnight 2018 9 15)
                   "project" "c3")
    1 (Some the_package) ∅.

(** The item after [item.package = None], as the last test prepares it. *)
Definition the_orphan_item : OpenStackItem := set_package None the_item.

Definition the_db : DB := mkDB [the_invoice] [the_item] [the_offering_item].

(** [@freeze_time('2018-11-01')] *)
Definition frozen_now : datetime := midnight 2018 11 1.

Definition the_settings : Settings :=
  mkSettings (timedelta_of_days 60) (timedelta_of_days 30).

Definition the_ledger : Ledger := mkLedger the_db [] [].

Definition downtime (y1 m1 d1 y2 m2 d2 : Z) : ServiceDowntime :=
  mkDowntime 1 (midnight y1 m1 d1) (midnight y2 m2 d2).

(** The ledger of [DowntimeValidationTest] once its [setUp] has put the
    downtime of October 5 to 15 on record. *)
Definition validation_ledger : Ledger :=
  snd (report the_settings frozen_now (downtime 2018 10 5 2018 10 15) the_ledger).


End Fixture.

(** * Properties *)

(** ** Arithmetic of days *)

Lemma us_per_day_pos : 0 < us_per_day.
Proof. reflexivity. Qed.

Lemma days_ge_1 (td : timedelta) : 1 ≤ days td ↔ us_per_day ≤ td.
Proof.
  unfold days. pose proof us_per_day_pos as Hd. split; intros Hle.
  - pose proof (Z.mul_div_le td us_per_day Hd). nia.
  - apply Z.div_le_lower_bound; lia.
Qed.

Lemma days_nonpos (td : timedelta) : td ≤ 0 → days td ≤ 0.
Proof.
  intros Hle. unfold days. pose proof us_per_day_pos as Hd.
  destruct (decide (td = 0)) as [->|Hne]; [done|].
  assert (td / us_per_day < 0); [|lia].
  apply Z.div_lt_upper_bound; lia.
Qed.

Lemma replace_hms_end_of_day_ge (dt : datetime) : dt ≤ replace_hms 23 59 59 dt.
Proof.
  unfold replace_hms, date_of, microsecond.
  change us_per_day with 86400000000. change us_per_second with 1000000.
  pose proof (Z.div_mod dt 86400000000 ltac:(lia)) as Hday.
  pose proof (Z.mod_pos_bound dt 86400000000 ltac:(lia)) as Hr.
  pose proof (Z.div_mod dt 1000000 ltac:(lia)) as Hsec.
  pose proof (Z.mod_pos_bound dt 1000000 ltac:(lia)) as Hm.
  lia.
Qed.

Lemma replace_hms_same_date (dt : datetime) : date_of (replace_hms 23 59 59 dt) = date_of dt.
Proof.
  unfold replace_hms, date_of, microsecond.
  change us_per_day with 86400000000. change us_per_second with 1000000.
  pose proof (Z.mod_pos_bound dt 1000000 ltac:(lia)) as Hm.
  symmetry. apply (Z.div_unique _ _ _ (86399000000 + dt mod 1000000)); lia.
Qed.

Lemma replace_hms_fields (dt : datetime) :
  let dt' := replace_hms 23 59 59 dt in
  hour dt' = 23 ∧ minute dt' = 59 ∧ second dt' = 59 ∧
  microsecond dt' = microsecond dt ∧ date_of dt' = date_of dt.
Proof.
  intros dt'. subst dt'.
  split; [|split; [|split; [|split; [|apply replace_hms_same_date]]]];
    unfold hour, minute, second, time_of_day, replace_hms, date_of, microsecond;
    change us_per_day with 86400000000; change us_per_second with 1000000;
    pose proof (Z.mod_pos_bound dt 1000000 ltac:(lia)) as Hm;
    set (m := dt mod 1000000) in *; set (q := dt / 86400000000).
  - rewrite <- (Z.mod_unique _ 86400000000 q (86399000000 + m)) by lia.
    symmetry. apply (Z.div_unique _ _ _ (3599000000 + m)); lia.
  - rewrite <- (Z.mod_unique _ 86400000000 q (86399000000 + m)) by lia.
    rewrite <- (Z.div_unique _ (60 * 1000000) 1439 (59000000 + m)) by lia.
    reflexivity.
  - rewrite <- (Z.mod_unique _ 86400000000 q (86399000000 + m)) by lia.
    rewrite <- (Z.div_unique _ 1000000 86399 m) by lia.
    reflexivity.
  - symmetry. apply (Z.mod_unique _ 1000000 (q * 86400 + 86399) m); lia.
Qed.

(** ** Item operations on the window *)

Lemma set_end_end (v : datetime) (b : InvoiceItem) : end_ (set_end v b) = v.
Proof. reflexivity. Qed.

Lemma OpenStackItem_freeze_base (self : OpenStackItem) (db : DB) :
  openstack_item_base (fst (OpenStackItem_freeze self db)) = openstack_item_base self.
Proof. unfold OpenStackItem_freeze. by destruct (package self). Qed.

Lemma OfferingItem_freeze_base (self : OfferingItem) (db : DB) :
  offering_item_base (fst (OfferingItem_freeze self db)) = offering_item_base self.
Proof. unfold OfferingItem_freeze. by destruct (offering self). Qed.

Lemma terminate_unfold {I : Type} `{ItemClass I} end' now (self : I) db :
  terminate end' now self db =
  let self1 := set_base (set_end (default now end') (base (fst (freeze self db))))
                        (fst (freeze self db)) in
  (self1, save_end self1 (snd (freeze self db))).
Proof. unfold terminate. by destruct (freeze self db). Qed.

Lemma OpenStackItem_frozen_freeze (self : OpenStackItem) (db : DB) :
  OpenStackItem_frozen (fst (OpenStackItem_freeze self db)).
Proof.
  unfold OpenStackItem_freeze, OpenStackItem_frozen.
  destruct (package self) as [p|] eqn:Hp; simpl; intros q Hq.
  - rewrite Hp in Hq. injection Hq as <-. by rewrite !lookup_insert.
  - by rewrite Hp in Hq.
Qed.

Lemma OfferingItem_frozen_freeze (self : OfferingItem) (db : DB) :
  OfferingItem_frozen (fst (OfferingItem_freeze self db)).
Proof.
  unfold OfferingItem_freeze, OfferingItem_frozen.
  destruct (offering self) as [o|] eqn:Ho; simpl; intros q Hq.
  - rewrite Ho in Hq. injection Hq as <-. by rewrite !lookup_insert.
  - by rewrite Ho in Hq.
Qed.

Lemma upsert_row_elem {R} (pk : R → Z) (obj : R) (tbl : list R) :
  obj ∈ ORM.upsert_row pk obj tbl.
Proof.
  unfold ORM.upsert_row. case_decide as Hex.
  - apply Exists_exists in Hex as (r & Hr & Hpk).
    unfold ORM.update_row. apply list_elem_of_fmap. exists r.
    split; [|done]. by rewrite decide_True.
  - apply elem_of_app. right. by apply list_elem_of_singleton.
Qed.

(** C10. For a positive number of days, [shift_backward] moves the end of
    the item to its start when the whole-day span of the window is not
    strictly greater than that number, and to exactly one day before the
    previous end otherwise, whatever the number; the item is saved with
    the new end. *)
Theorem shift_backward_end (days_ : Z) (self : OpenStackItem) (db : DB) :
  0 < days_ →
  let b := openstack_item_base self in
  let r := shift_backward days_ self db in
  (days (end_ b - start b) ≤ days_ → end_ (base (fst r)) = start b) ∧
  (days (end_ b - start b) > days_ →
     end_ (base (fst r)) = end_ b - timedelta_of_days 1 ∧
     ∀ other, 0 < other → days (end_ b - start b) > other →
       fst (shift_backward other self db) = fst r) ∧
  start (base (fst r)) = start b ∧
  fst r ∈ openstack_item_table (snd r).
Proof.
  intros Hpos b r. subst r. unfold shift_backward. fold b. simpl.
  repeat split.
  - intros Hle. by rewrite decide_False by lia.
  - by rewrite decide_True by done.
  - intros other _ Hother. by rewrite !decide_True by done.
  - apply upsert_row_elem.
Qed.

Lemma shift_backward_end_witness :
  let r := shift_backward 3 Fixture.the_item Fixture.the_db in
  end_ (base (fst r)) = midnight 2018 10 14 ∧
  fst (shift_backward 1 Fixture.the_item Fixture.the_db) = fst r.
Proof.
  pose proof (shift_backward_end 3 Fixture.the_item Fixture.the_db ltac:(lia))
    as (_ & Hgt & _).
  destruct Hgt as [Hend Hany]; [vm_compute; reflexivity|].
  split.
  - exact Hend.
  - apply Hany; [lia | vm_compute; reflexivity].
Defined.

(** C2, as the code has it. [terminate] freezes the item and then stores
    the end it is given, the current time when none is given, whether
    that moment lies before or after the end the item had; the row of the
    item is saved with that end. *)
Theorem terminate_sets_given_end (end' : option datetime) (now : datetime) (db : DB) :
  (∀ self : OpenStackItem,
     let r := terminate end' now self db in
     end_ (base (fst r)) = default now end' ∧
     OpenStackItem_frozen (fst r) ∧
     fst r = set_base (set_end (default now end') (base self)) (fst (freeze self db))) ∧
  (∀ self : OfferingItem,
     let r := terminate end' now self db in
     end_ (base (fst r)) = default now end' ∧
     OfferingItem_frozen (fst r) ∧
     fst r = set_base (set_end (default now end') (base self)) (fst (freeze self db))).
Proof.
  split; intros self r; subst r; rewrite terminate_unfold; simpl.
  - split; [done|]. split.
    + intros p Hp. by apply (OpenStackItem_frozen_freeze self db).
    + by rewrite OpenStackItem_freeze_base.
  - split; [done|]. split.
    + intros o Ho. by apply (OfferingItem_frozen_freeze self db).
    + by rewrite OfferingItem_freeze_base.
Qed.

(** C2, as stated, fails: terminating the fixture's item, which ends on
    October 15, with October 20 stores October 20, not the minimum of the
    two, and so extends the window. *)
Lemma terminate_min_counterexample :
  let r := terminate (Some (midnight 2018 10 20)) Fixture.frozen_now
                     Fixture.the_item Fixture.the_db in
  end_ (base (fst r)) ≠ Z.min (midnight 2018 10 20) (end_ (base Fixture.the_item)) ∧
  end_ (base Fixture.the_item) < end_ (base (fst r)).
Proof. vm_compute. split; [discriminate | reflexivity]. Qed.

Lemma OpenStackItem_freeze_well_formed (self : OpenStackItem) (db : DB) :
  well_formed self → well_formed (fst (freeze self db)).
Proof. unfold well_formed. simpl. by rewrite OpenStackItem_freeze_base. Qed.

Lemma OfferingItem_freeze_well_formed (self : OfferingItem) (db : DB) :
  well_formed self → well_formed (fst (freeze self db)).
Proof. unfold well_formed. simpl. by rewrite OfferingItem_freeze_base. Qed.

Lemma shift_backward_well_formed (days_ : Z) (self : OpenStackItem) (db : DB) :
  0 ≤ days_ → well_formed self → well_formed (fst (shift_backward days_ self db)).
Proof.
  intros Hdays [Hwin Hprice]. split; [|done].
  unfold shift_backward. simpl in *. case_decide as Hspan; simpl; [|lia].
  assert (1 ≤ days (end_ (openstack_item_base self) - start (openstack_item_base self)))
    as Hone by lia.
  apply days_ge_1 in Hone. unfold timedelta_of_days. lia.
Qed.

Lemma extend_to_the_end_of_the_day_well_formed (self : OpenStackItem) (db : DB) :
  well_formed self → well_formed (fst (extend_to_the_end_of_the_day self db)).
Proof.
  intros [Hwin Hprice]. split; [|done]. simpl in *.
  pose proof (replace_hms_end_of_day_ge (end_ (openstack_item_base self))). lia.
Qed.

Lemma OpenStackItem_terminate_well_formed (self : OpenStackItem) (db : DB) end' now :
  well_formed self →
  start (base self) ≤ default now end' ↔ well_formed (fst (terminate end' now self db)).
Proof.
  intros [Hwin Hprice]. rewrite terminate_unfold. unfold well_formed. simpl.
  rewrite OpenStackItem_freeze_base. tauto.
Qed.

Lemma OfferingItem_terminate_well_formed (self : OfferingItem) (db : DB) end' now :
  well_formed self →
  start (base self) ≤ default now end' ↔ well_formed (fst (terminate end' now self db)).
Proof.
  intros [Hwin Hprice]. rewrite terminate_unfold. unfold well_formed. simpl.
  rewrite OfferingItem_freeze_base. tauto.
Qed.


(** C6, as the code has it. On a well-formed item, [shift_backward] with a
    number of days that is not negative and [extend_to_the_end_of_the_day]
    keep start <= end; [terminate] keeps it exactly when the end it
    stores is not before the start of the item; [freeze] does not touch
    the window; and all four leave [daily_price] as it was, hence not
    negative. *)
Theorem window_operations_well_formed (db : DB) :
  (∀ self : OpenStackItem, well_formed self →
     (∀ days_, 0 ≤ days_ → well_formed (fst (shift_backward days_ self db))) ∧
     well_formed (fst (extend_to_the_end_of_the_day self db)) ∧
     well_formed (fst (freeze self db)) ∧
     (∀ end' now, start (base self) ≤ default now end' ↔
                  well_formed (fst (terminate end' now self db))) ∧
     (∀ days_ end' now,
        daily_price (base (fst (shift_backward days_ self db))) = daily_price (base self) ∧
        daily_price (base (fst (extend_to_the_end_of_the_day self db))) = daily_price (base self) ∧
        daily_price (base (fst (freeze self db))) = daily_price (base self) ∧
        daily_price (base (fst (terminate end' now self db))) = daily_price (base self))) ∧
  (∀ self : OfferingItem, well_formed self →
     well_formed (fst (freeze self db)) ∧
     (∀ end' now, start (base self) ≤ default now end' ↔
                  well_formed (fst (terminate end' now self db))) ∧
     (∀ end' now,
        daily_price (base (fst (freeze self db))) = daily_price (base self) ∧
        daily_price (base (fst (terminate end' now self db))) = daily_price (base self))).
Proof.
  split; intros self Hwf.
  - split; [|split; [|split; [|split]]].
    + intros days_ Hdays. by apply shift_backward_well_formed.
    + by apply extend_to_the_end_of_the_day_well_formed.
    + by apply OpenStackItem_freeze_well_formed.
    + intros end' now. by apply OpenStackItem_terminate_well_formed.
    + intros days_ end' now. rewrite terminate_unfold. simpl.
      by rewrite OpenStackItem_freeze_base.
  - split; [|split].
    + by apply OfferingItem_freeze_well_formed.
    + intros end' now. by apply OfferingItem_terminate_well_formed.
    + intros end' now. rewrite terminate_unfold. simpl.
      by rewrite OfferingItem_freeze_base.
Qed.

(** C6, as stated, fails. The fixture's item is well formed; terminating
    it with October 1, before its start on October 11, leaves an end
    before the start; and on an item of zero length a negative number of
    days makes [shift_backward] move the end one day before the start. *)
Lemma window_invariant_counterexample :
  let empty_item := set_base (set_end (midnight 2018 10 11) (base Fixture.the_item))
                             Fixture.the_item in
  well_formed Fixture.the_item ∧
  ¬ well_formed (fst (terminate (Some (midnight 2018 10 1)) Fixture.frozen_now
                                Fixture.the_item Fixture.the_db)) ∧
  well_formed empty_item ∧
  ¬ well_formed (fst (shift_backward (-1) empty_item Fixture.the_db)).
Proof.
  repeat split.
  - vm_compute. discriminate.
  - vm_compute. discriminate.
  - intros [Hwin _]. vm_compute in Hwin. by apply Hwin.
  - vm_compute. discriminate.
  - vm_compute. discriminate.
  - intros [Hwin _]. vm_compute in Hwin. by apply Hwin.
Qed.

Lemma window_operations_well_formed_witness :
  well_formed Fixture.the_item ∧
  well_formed (fst (shift_backward 1 Fixture.the_item Fixture.the_db)) ∧
  well_formed (fst (extend_to_the_end_of_the_day Fixture.the_item Fixture.the_db)) ∧
  well_formed (fst (terminate (Some (midnight 2018 10 13)) Fixture.frozen_now
                              Fixture.the_item Fixture.the_db)).
Proof.
  assert (well_formed Fixture.the_item) as Hwf by (split; vm_compute; discriminate).
  destruct (window_operations_well_formed Fixture.the_db) as [Hitem _].
  destruct (Hitem Fixture.the_item Hwf) as (Hshift & Hextend & _ & Hterminate & _).
  split; [exact Hwf|]. split; [apply Hshift; lia|]. split; [exact Hextend|].
  apply Hterminate. vm_compute. discriminate.
Defined.

(** ** Freezing *)

Lemma update_row_idempotent {R} (pk : R → Z) (key : Z) (upd : R → R) (tbl : list R) :
  (∀ r, pk (upd r) = pk r) → (∀ r, upd (upd r) = upd r) →
  ORM.update_row pk key upd (ORM.update_row pk key upd tbl) = ORM.update_row pk key upd tbl.
Proof.
  intros Hpk Hupd. unfold ORM.update_row. rewrite <- list_fmap_compose.
  apply list_fmap_ext. intros _ r _. simpl.
  destruct (decide (pk r = key)) as [Hr|Hr].
  - by rewrite decide_True, Hupd by (by rewrite Hpk).
  - by rewrite decide_False.
Qed.

Lemma update_row_Forall2 {R} (pk : R → Z) (key : Z) (upd : R → R) (P : R → R → Prop)
    (tbl : list R) :
  (∀ r, P r r) → (∀ r, P r (upd r)) → Forall2 P tbl (ORM.update_row pk key upd tbl).
Proof.
  intros Hrefl Hupd. unfold ORM.update_row.
  induction tbl as [|r tbl IH]; simpl; constructor; [|done].
  by case_decide.
Qed.

Lemma OpenStackItem_details_stable (p : OpenStackPackage) (d : gmap string string) :
  let d' := <["template_uuid" := template_uuid_hex (template p)]>
              (<["template_name" := template_name (template p)]>
                 (<["tenant_uuid" := tenant_uuid_hex (tenant p)]>
                    (<["tenant_name" := tenant_name (tenant p)]> d))) in
  <["template_uuid" := template_uuid_hex (template p)]>
    (<["template_name" := template_name (template p)]>
       (<["tenant_uuid" := tenant_uuid_hex (tenant p)]>
          (<["tenant_name" := tenant_name (tenant p)]> d'))) = d'.
Proof.
  intros d'. subst d'. apply map_eq. intros k.
  rewrite !lookup_insert. by repeat case_decide.
Qed.

Lemma OfferingItem_details_stable (o : Offering) (d : gmap string string) :
  let d' := <["offering_type" := offering_type o]>
              (<["project_name" := project_name_of (offering_project o)]> d) in
  <["offering_type" := offering_type o]>
    (<["project_name" := project_name_of (offering_project o)]> d') = d'.
Proof.
  intros d'. subst d'. apply map_eq. intros k.
  rewrite !lookup_insert. by repeat case_decide.
Qed.

Lemma OpenStackItem_freeze_idempotent (self : OpenStackItem) (db : DB) :
  let r := freeze self db in freeze (fst r) (snd r) = r.
Proof.
  simpl. unfold OpenStackItem_freeze.
  destruct (package self) as [p|] eqn:Hp; simpl; rewrite Hp; [|done].
  rewrite OpenStackItem_details_stable.
  unfold OpenStackItem_save, set_openstack_item_table, set_package_details. simpl.
  by rewrite update_row_idempotent.
Qed.

Lemma OfferingItem_freeze_idempotent (self : OfferingItem) (db : DB) :
  let r := freeze self db in freeze (fst r) (snd r) = r.
Proof.
  simpl. unfold OfferingItem_freeze.
  destruct (offering self) as [o|] eqn:Ho; simpl; rewrite Ho; [|done].
  rewrite OfferingItem_details_stable.
  unfold OfferingItem_save, set_offering_item_table, set_offering_details. simpl.
  by rewrite update_row_idempotent.
Qed.

(** C7. [freeze] is idempotent for both kinds of item: a second call
    returns the object and the database the first call left, so the
    details are those of one call and nothing else is written; and on an
    item whose live reference ([package], [offering]) is null it changes
    neither the object nor the database, and does not raise. *)
Theorem freeze_idempotent (db : DB) :
  (∀ self : OpenStackItem,
     let r := freeze self db in
     freeze (fst r) (snd r) = r ∧
     package_details (fst (freeze (fst r) (snd r))) = package_details (fst r) ∧
     (package self = None → r = (self, db))) ∧
  (∀ self : OfferingItem,
     let r := freeze self db in
     freeze (fst r) (snd r) = r ∧
     offering_details (fst (freeze (fst r) (snd r))) = offering_details (fst r) ∧
     (offering self = None → r = (self, db))).
Proof.
  split; intros self r; subst r.
  - pose proof (OpenStackItem_freeze_idempotent self db) as Hidem. cbv zeta in Hidem.
    split; [exact Hidem|]. split; [by rewrite Hidem|].
    intros Hnull. simpl. unfold OpenStackItem_freeze. by rewrite Hnull.
  - pose proof (OfferingItem_freeze_idempotent self db) as Hidem. cbv zeta in Hidem.
    split; [exact Hidem|]. split; [by rewrite Hidem|].
    intros Hnull. simpl. unfold OfferingItem_freeze. by rewrite Hnull.
Qed.

Lemma freeze_idempotent_witness :
  freeze Fixture.the_orphan_item Fixture.the_db = (Fixture.the_orphan_item, Fixture.the_db) ∧
  (let r := freeze Fixture.the_item Fixture.the_db in freeze (fst r) (snd r) = r).
Proof.
  destruct (freeze_idempotent Fixture.the_db) as [Hitem _]. split.
  - apply (Hitem Fixture.the_orphan_item). reflexivity.
  - apply (Hitem Fixture.the_item).
Defined.

(** C8. [freeze] leaves [start], [end] and [daily_price] of the item as
    they were, so [usage_days] and [price] evaluate to the same values
    before and after; the object differs from the one before at most in
    its details, and so does every row of its table; the other tables are
    not written. *)
Theorem freeze_frame (db : DB) :
  (∀ self : OpenStackItem,
     let r := freeze self db in
     start (base (fst r)) = start (base self) ∧
     end_ (base (fst r)) = end_ (base self) ∧
     daily_price (base (fst r)) = daily_price (base self) ∧
     usage_days (fst r) = usage_days self ∧
     price (fst r) = price self ∧
     fst r = set_package_details (package_details (fst r)) self ∧
     Forall2 (λ row row', row' = set_package_details (package_details row') row)
             (openstack_item_table db) (openstack_item_table (snd r)) ∧
     offering_item_table (snd r) = offering_item_table db ∧
     invoice_table (snd r) = invoice_table db) ∧
  (∀ self : OfferingItem,
     let r := freeze self db in
     start (base (fst r)) = start (base self) ∧
     end_ (base (fst r)) = end_ (base self) ∧
     daily_price (base (fst r)) = daily_price (base self) ∧
     usage_days (fst r) = usage_days self ∧
     price (fst r) = price self ∧
     fst r = set_offering_details (offering_details (fst r)) self ∧
     Forall2 (λ row row', row' = set_offering_details (offering_details row') row)
             (offering_item_table db) (offering_item_table (snd r)) ∧
     openstack_item_table (snd r) = openstack_item_table db ∧
     invoice_table (snd r) = invoice_table db).
Proof.
  split; intros self r; subst r.
  - unfold usage_days, price, usage_days. simpl.
    rewrite !OpenStackItem_freeze_base. repeat split; try done.
    + unfold OpenStackItem_freeze. by destruct (package self), self.
    + unfold OpenStackItem_freeze. destruct (package self); simpl.
      * apply update_row_Forall2; by intros [].
      * apply Forall2_same_length_lookup_2; [done|]. intros i x y Hx Hy.
        assert (x = y) as -> by congruence. by destruct y.
    + unfold OpenStackItem_freeze. by destruct (package self).
    + unfold OpenStackItem_freeze. by destruct (package self).
  - unfold usage_days, price, usage_days. simpl.
    rewrite !OfferingItem_freeze_base. repeat split; try done.
    + unfold OfferingItem_freeze. by destruct (offering self), self.
    + unfold OfferingItem_freeze. destruct (offering self); simpl.
      * apply update_row_Forall2; by intros [].
      * apply Forall2_same_length_lookup_2; [done|]. intros i x y Hx Hy.
        assert (x = y) as -> by congruence. by destruct y.
    + unfold OfferingItem_freeze. by destruct (offering self).
    + unfold OfferingItem_freeze. by destruct (offering self).
Qed.

(** ** The decimal context *)

Section DecimalContext.
Import Dec.

Lemma ndigits_fuel_spec (fuel : nat) (n : Z) :
  0 < n < 2 ^ Z.of_nat fuel →
  1 ≤ ndigits_fuel fuel n ∧ 10 ^ (ndigits_fuel fuel n - 1) ≤ n < 10 ^ ndigits_fuel fuel n.
Proof.
  revert n. induction fuel as [|fuel IH]; intros n [Hpos Hlt].
  - simpl in Hlt. lia.
  - cbn [ndigits_fuel]. destruct (Z.ltb_spec n 10) as [Hsmall|Hbig].
    + simpl. lia.
    + assert (0 < n / 10 < 2 ^ Z.of_nat fuel) as Hrec.
      { split; [apply Z.div_str_pos; lia|].
        rewrite Nat2Z.inj_succ, Z.pow_succ_r in Hlt by lia.
        apply Z.div_lt_upper_bound; lia. }
      destruct (IH _ Hrec) as (Hone & Hlow & Hhigh).
      set (k := ndigits_fuel fuel (n / 10)) in *.
      replace (1 + k - 1) with (Z.succ (k - 1)) by lia.
      replace (1 + k) with (Z.succ k) by lia.
      rewrite !Z.pow_succ_r by lia.
      pose proof (Z.div_mod n 10 ltac:(lia)) as Hdiv.
      pose proof (Z.mod_pos_bound n 10 ltac:(lia)) as Hmod.
      lia.
Qed.

Lemma ndigits_spec (n : Z) :
  0 < n → 1 ≤ ndigits n ∧ 10 ^ (ndigits n - 1) ≤ n < 10 ^ ndigits n.
Proof.
  intros Hpos. apply ndigits_fuel_spec. split; [done|].
  rewrite Nat2Z.inj_succ, Z2Nat.id by apply Z.log2_nonneg.
  apply Z.log2_spec. done.
Qed.

Lemma pow10_pos (z : Z) : (0 < pow10 z)%Q.
Proof. apply Qpower_0_lt. reflexivity. Qed.

Lemma pow10_add (a b : Z) : (pow10 (a + b) == pow10 a * pow10 b)%Q.
Proof. apply Qpower_plus. discriminate. Qed.

Lemma pow10_Z (z : Z) : 0 ≤ z → (pow10 z == inject_Z (10 ^ z))%Q.
Proof. intros Hz. symmetry. by apply Zpower_Qpower. Qed.

Lemma pow10_lt_inv (a b : Z) : (pow10 a < pow10 b)%Q → a < b.
Proof. intros Hlt. by apply (Qpower_lt_compat_l_inv (inject_Z 10)). Qed.

Lemma pow10_unique (q : Q) (e e' : Z) :
  (pow10 e <= q)%Q → (q < pow10 (e + 1))%Q →
  (pow10 e' <= q)%Q → (q < pow10 (e' + 1))%Q → e = e'.
Proof.
  intros Hlow Hhigh Hlow' Hhigh'.
  pose proof (pow10_lt_inv e (e' + 1) (Qle_lt_trans _ _ _ Hlow Hhigh')).
  pose proof (pow10_lt_inv e' (e + 1) (Qle_lt_trans _ _ _ Hlow' Hhigh)).
  lia.
Qed.

(** Between two powers of ten: an integer with [k] digits. *)
Lemma inject_digits (n : Z) :
  0 < n → (pow10 (ndigits n - 1) <= inject_Z n)%Q ∧ (inject_Z n < pow10 (ndigits n))%Q.
Proof.
  intros Hpos. destruct (ndigits_spec n Hpos) as (Hone & Hlow & Hhigh).
  rewrite !pow10_Z by lia. split.
  - by rewrite <- Zle_Qle.
  - by rewrite <- Zlt_Qlt.
Qed.

Lemma adjusted_spec (q : Q) :
  (0 < q)%Q → (pow10 (adjusted q) <= q)%Q ∧ (q < pow10 (adjusted q + 1))%Q.
Proof.
  intros Hpos. destruct q as [n d].
  assert (0 < n) as Hn by (unfold Qlt in Hpos; simpl in Hpos; lia).
  destruct (inject_digits n Hn) as [Hn_low Hn_high].
  destruct (inject_digits (Zpos d) ltac:(lia)) as [Hd_low Hd_high].
  assert ((n # d) * inject_Z (Zpos d) == inject_Z n)%Q as Hq.
  { unfold Qeq, Qmult, inject_Z. simpl. lia. }
  unfold adjusted. cbn [Qnum Qden].
  set (g := ndigits n - ndigits (Zpos d)).
  assert (pow10 (g - 1) < n # d)%Q as Hlow.
  { apply (Qmult_lt_r _ _ (pow10 (ndigits (Zpos d)))); [apply pow10_pos|].
    rewrite <- pow10_add. replace (g - 1 + ndigits (Zpos d)) with (ndigits n - 1) by lia.
    apply (Qle_lt_trans _ _ _ Hn_low). rewrite <- Hq.
    apply Qmult_lt_l; [done|]. done. }
  assert (n # d < pow10 (g + 1))%Q as Hhigh.
  { apply (Qmult_lt_r _ _ (pow10 (ndigits (Zpos d) - 1))); [apply pow10_pos|].
    rewrite <- pow10_add. replace (g + 1 + (ndigits (Zpos d) - 1)) with (ndigits n) by lia.
    apply (Qle_lt_trans _ ((n # d) * inject_Z (Zpos d))).
    - apply Qmult_le_l; [done|]. done.
    - by rewrite Hq. }
  destruct (Qle_bool (pow10 g) (n # d)) eqn:Hcmp.
  - apply Qle_bool_iff in Hcmp. by split.
  - split.
    + by apply Qlt_le_weak.
    + replace (g - 1 + 1) with g by lia. apply Qnot_le_lt. intros Hle.
      apply Qle_bool_iff in Hle. congruence.
Qed.

Lemma half_even_inject_Z (y : Q) (z : Z) : (y == inject_Z z)%Q → half_even y = z.
Proof.
  intros Hy. unfold half_even. cbv zeta.
  rewrite (Qfloor_comp y (inject_Z z) Hy), Qfloor_Z.
  assert (y - inject_Z z == 0)%Q as Hdiff by (rewrite Hy; ring).
  rewrite (Qcompare_comp _ _ Hdiff _ _ (Qeq_refl (1 # 2))). reflexivity.
Qed.

Lemma round_pos_fits (q : Q) (c k : Z) :
  0 < c < 10 ^ prec → (q == inject_Z c * pow10 k)%Q → (round_pos q == q)%Q.
Proof.
  intros [Hpos Hlt] Hq.
  destruct (ndigits_spec c Hpos) as (Hone & Hc_low & Hc_high).
  destruct (inject_digits c Hpos) as [Hlow Hhigh].
  set (D := ndigits c) in *.
  assert (D ≤ prec) as HD.
  { destruct (Z.le_gt_cases D prec) as [|Hgt]; [done|].
    assert (10 ^ prec ≤ 10 ^ (D - 1)) by (apply Z.pow_le_mono_r; unfold prec in *; lia).
    lia. }
  assert (0 < q)%Q as Hq_pos.
  { rewrite Hq. apply Qmult_lt_0_compat; [|apply pow10_pos].
    change 0%Q with (inject_Z 0). by rewrite <- Zlt_Qlt. }
  assert (adjusted q = D - 1 + k) as Hadj.
  { destruct (adjusted_spec q Hq_pos) as [Ha_low Ha_high].
    apply (pow10_unique q); [done|done| |].
    - rewrite Hq, pow10_add. apply Qmult_le_r; [apply pow10_pos|done].
    - rewrite Hq. replace (D - 1 + k + 1) with (D + k) by lia. rewrite pow10_add.
      apply Qmult_lt_r; [apply pow10_pos|done]. }
  unfold round_pos. rewrite Hadj.
  replace (D - 1 + k - (prec - 1)) with (k - (prec - D)) by lia.
  assert (pow10 k == pow10 (k - (prec - D)) * pow10 (prec - D))%Q as Hsplit.
  { rewrite <- pow10_add. by replace (k - (prec - D) + (prec - D)) with k by lia. }
  assert (q / pow10 (k - (prec - D)) == inject_Z (c * 10 ^ (prec - D)))%Q as Hcoeff.
  { rewrite inject_Z_mult, <- pow10_Z by lia. rewrite Hq, Hsplit.
    field. apply Qnot_eq_sym, Qlt_not_eq, pow10_pos. }
  rewrite (half_even_inject_Z _ _ Hcoeff).
  rewrite inject_Z_mult, <- pow10_Z by lia. rewrite Hq, Hsplit. ring.
Qed.

Lemma round_Q_fits (q : Q) (c k : Z) :
  Z.abs c < 10 ^ prec → (q == inject_Z c * pow10 k)%Q → (round_Q q == q)%Q.
Proof.
  intros Hlt Hq. unfold round_Q.
  destruct (Z.lt_trichotomy c 0) as [Hneg|[->|Hpos]].
  - assert (q < 0)%Q as Hq_neg.
    { assert (inject_Z c * pow10 k < 0 * pow10 k)%Q as Hprod.
      { apply Qmult_lt_r; [apply pow10_pos|]. change 0%Q with (inject_Z 0).
        by rewrite <- Zlt_Qlt. }
      rewrite Qmult_0_l in Hprod. by rewrite Hq. }
    rewrite (proj1 (Qlt_alt _ _) Hq_neg).
    rewrite (round_pos_fits (- q) (- c) k); [ring|lia|].
    rewrite Hq, inject_Z_opp. ring.
  - assert (q == 0)%Q as Hzero by (rewrite Hq; ring).
    by rewrite (proj1 (Qeq_alt _ _) Hzero).
  - assert (0 < q)%Q as Hq_pos.
    { rewrite Hq. apply Qmult_lt_0_compat; [|apply pow10_pos].
      change 0%Q with (inject_Z 0). by rewrite <- Zlt_Qlt. }
    rewrite (proj1 (Qgt_alt _ _) Hq_pos). apply (round_pos_fits q c k); [lia|done].
Qed.


(** The context leaves alone what fits its precision. *)
Lemma round_fits (q : Decimal) : fits q → round q = q.
Proof.
  intros (c & k & Hc & Hq). apply Qc_is_canon.
  change (this (round q)) with (Qred (round_Q q)).
  rewrite Qred_correct. by apply (round_Q_fits _ c k).
Qed.



End DecimalContext.

(** The context at work: a quotient that does not terminate is cut to 28
    digits, a tie goes to the even digit, and a carry out of the last digit
    is kept. *)
Example decimal_context_rounds :
  Dec.div (Q2Qc 1%Q) (Q2Qc 3%Q)
    = Q2Qc (3333333333333333333333333333 # 10000000000000000000000000000) ∧
  Dec.div (Q2Qc 2%Q) (Q2Qc 3%Q)
    = Q2Qc (6666666666666666666666666667 # 10000000000000000000000000000) ∧
  Dec.mul (Q2Qc 12345678901234567890123456785%Q) (Q2Qc 1%Q)
    = Q2Qc 12345678901234567890123456780%Q ∧
  Dec.mul (Q2Qc 12345678901234567890123456775%Q) (Q2Qc 1%Q)
    = Q2Qc 12345678901234567890123456780%Q ∧
  Dec.add (Q2Qc 99999999999999999999999999990%Q) (Q2Qc 5%Q)
    = Q2Qc 100000000000000000000000000000%Q ∧
  Dec.add (Q2Qc (-1 # 3)) (Q2Qc (-1 # 3))
    = Q2Qc (-6666666666666666666666666667 # 10000000000000000000000000000) ∧
  Dec.add (Q2Qc 12%Q) (Q2Qc (12 # 5)) = Q2Qc (72 # 5).
Proof. repeat split; apply Qc_is_canon; vm_compute; reflexivity. Qed.

(** ** Derived prices *)

Lemma sum_snoc (xs : list Decimal) (x : Decimal) : sum (xs ++ [x]) = Dec.add (sum xs) x.
Proof. unfold sum. by rewrite fold_left_app. Qed.







(** ** Invoice life cycle *)

(** What [set_created] does: outside the pending state it raises and
    leaves the invoice and the database alone; in the pending state it
    moves the invoice to the created state and stamps the date, on the
    object and on its row, and writes no item table; it then returns
    normally if the invoice has a stored row, and leaves with
    [DatabaseError] if it has none. *)
Lemma set_created_outcome (now : datetime) (self : Invoice) (db : DB) :
  (state self ≠ States.PENDING →
     set_created now self db = (Raise IncorrectStateException, (self, db))) ∧
  (state self = States.PENDING →
     ∃ outcome self' db',
       set_created now self db = (outcome, (self', db')) ∧
       outcome = (if decide (Exists (λ row, invoice_id row = invoice_id self)
                                    (invoice_table db))
                  then Ok () else Raise DatabaseError) ∧
       state self' = States.CREATED ∧
       invoice_date self' = Some (date_of now) ∧
       openstack_item_table db' = openstack_item_table db ∧
       offering_item_table db' = offering_item_table db ∧
       Forall (λ row, invoice_id row = invoice_id self →
                 state row = States.CREATED ∧ invoice_date row = Some (date_of now))
              (invoice_table db')).
Proof.
  unfold set_created. split; intros Hstate.
  - by rewrite decide_True.
  - rewrite decide_False by (by intros []). eexists _, _, _. split; [done|].
    repeat split. simpl. unfold ORM.update_row.
    apply Forall_fmap, Forall_forall. intros row _ Hrow. simpl.
    destruct (decide (invoice_id row = invoice_id self)) as [_|Hne]; [done|].
    by destruct Hne.
Qed.

(** Scenario E: the second of two calls raises, and changes nothing. *)
Example set_created_twice :
  let '(_, (self, db)) := set_created Fixture.frozen_now Fixture.the_invoice Fixture.the_db in
  set_created Fixture.frozen_now self db = (Raise IncorrectStateException, (self, db)).
Proof. reflexivity. Qed.

(** C1, at the fixture. [set_created] on the pending invoice succeeds,
    moves it to the created state and stamps the date, but its two items,
    which have live references and empty details, are left exactly as
    they were, not frozen; [Invoice.freeze], the method that holds the
    loops the docstring of [set_created] announces, freezes both on the
    same database. *)
Theorem set_created_does_not_freeze :
  let '(outcome, (self, db)) :=
    set_created Fixture.frozen_now Fixture.the_invoice Fixture.the_db in
  outcome = Ok () ∧
  state self = States.CREATED ∧
  invoice_date self = Some (date_of Fixture.frozen_now) ∧
  openstack_item_table db = [Fixture.the_item] ∧
  offering_item_table db = [Fixture.the_offering_item] ∧
  ¬ OpenStackItem_frozen Fixture.the_item ∧
  ¬ OfferingItem_frozen Fixture.the_offering_item ∧
  Forall OpenStackItem_frozen
         (openstack_item_table (Invoice_freeze Fixture.the_invoice Fixture.the_db)) ∧
  Forall OfferingItem_frozen
         (offering_item_table (Invoice_freeze Fixture.the_invoice Fixture.the_db)).
Proof.
  simpl. repeat split.
  - intros Hfrozen. destruct (Hfrozen Fixture.the_package eq_refl) as [Hname _].
    vm_compute in Hname. discriminate.
  - intros Hfrozen. destruct (Hfrozen Fixture.the_offering eq_refl) as [Hname _].
    vm_compute in Hname. discriminate.
  - apply Forall_cons. split; [|by apply Forall_nil].
    apply (OpenStackItem_frozen_freeze Fixture.the_item Fixture.the_db).
  - apply Forall_cons. split; [|by apply Forall_nil].
    apply (OfferingItem_frozen_freeze Fixture.the_offering_item Fixture.the_db).
Qed.

(** ** Downtime registry *)

Section Registry.
Import Downtime.

Lemma overlaps_sym (a b : ServiceDowntime) : overlaps a b → overlaps b a.
Proof. intros (Hpkg & Hab & Hba). by repeat split. Qed.

Lemma pairwise_disjoint_snoc (registry : list ServiceDowntime) (d : ServiceDowntime) :
  pairwise_disjoint registry → Forall (λ e, ¬ overlaps e d) registry →
  pairwise_disjoint (registry ++ [d]).
Proof.
  induction registry as [|e registry IH]; simpl; intros Hdis Hnew.
  - by split.
  - destruct Hdis as [He Hdis]. apply Forall_cons in Hnew as [Hed Hnew].
    split; [|by apply IH].
    apply Forall_app. split; [done|]. by apply Forall_singleton.
Qed.

Lemma pairwise_disjoint_filter (P : ServiceDowntime → Prop) `{∀ x, Decision (P x)}
    (registry : list ServiceDowntime) :
  pairwise_disjoint registry → pairwise_disjoint (filter P registry).
Proof.
  induction registry as [|e registry IH]; simpl; intros Hdis; [done|].
  destruct Hdis as [He Hdis]. rewrite filter_cons. case_decide; [|by apply IH].
  simpl. split; [|by apply IH].
  apply Forall_forall. intros x Hx. apply list_elem_of_filter in Hx as [_ Hx].
  by apply (proj1 (Forall_forall _ _) He).
Qed.

Lemma pairwise_disjoint_lt (registry : list ServiceDowntime) i j a b :
  pairwise_disjoint registry → (i < j)%nat →
  registry !! i = Some a → registry !! j = Some b → ¬ overlaps a b.
Proof.
  revert i j. induction registry as [|e registry IH]; intros i j Hdis Hlt Hi Hj; [done|].
  destruct Hdis as [He Hdis]. destruct j as [|j]; [lia|]. simpl in Hj.
  destruct i as [|i]; simpl in Hi.
  - injection Hi as ->. apply (proj1 (Forall_forall _ _) He).
    apply list_elem_of_lookup. by exists j.
  - apply (IH i j); [done | lia | done | done].
Qed.

Lemma pairwise_disjoint_no_overlapping_pair (registry : list ServiceDowntime) :
  pairwise_disjoint registry → no_overlapping_pair registry.
Proof.
  intros Hdis i j a b Hne Hi Hj Hov.
  destruct (decide (i < j)%nat) as [Hlt|Hge].
  - by apply (pairwise_disjoint_lt registry i j a b).
  - apply (pairwise_disjoint_lt registry j i b a); [done | lia | done | done |].
    by apply overlaps_sym.
Qed.

Lemma clean_Ok_inv cfg now registry new :
  clean cfg now registry new = Ok () →
  downtime_start new < downtime_end new ∧
  now - downtime_start new ≤ max_offset cfg ∧
  downtime_end new - downtime_start new ≤ max_duration cfg ∧
  Forall (λ existing, ¬ overlaps existing new) registry.
Proof.
  unfold clean. repeat case_decide; try discriminate. intros _.
  repeat split; try lia. by apply Forall_Exists_neg.
Qed.

Lemma clean_overlap cfg now registry new existing :
  existing ∈ registry → overlaps existing new →
  clean cfg now registry new = Raise ValidationError.
Proof.
  intros Hin Hov. unfold clean. repeat case_decide; try done.
  exfalso. match goal with H : ¬ Exists _ _ |- _ => apply H end.
  apply Exists_exists. by exists existing.
Qed.

Lemma reachable_pairwise_disjoint cfg led :
  reachable cfg led → pairwise_disjoint (downtimes led).
Proof.
  induction 1 as [db|now d led led' _ IH Hreport|now d led _ IH|db led _ IH]; simpl.
  - done.
  - unfold report in Hreport.
    destruct (clean cfg now (downtimes led) d) as [[]|e] eqn:Hclean; [|discriminate].
    injection Hreport as <-. simpl.
    apply clean_Ok_inv in Hclean as (_ & _ & _ & Hnew).
    by apply pairwise_disjoint_snoc.
  - by apply pairwise_disjoint_filter.
  - done.
Qed.

End Registry.

(** C5. In every ledger the registry can reach, reporting a window for a
    package is rejected with a validation error, and nothing is written,
    whenever a downtime on record for that package satisfies
    existing.start < new.end and new.start < existing.end; and the
    registry holds no two overlapping windows for one package. *)
Theorem overlapping_downtime_rejected (cfg : Downtime.Settings) (led : Downtime.Ledger) :
  Downtime.reachable cfg led →
  (∀ now new existing,
     existing ∈ Downtime.downtimes led →
     Downtime.downtime_package existing = Downtime.downtime_package new →
     Downtime.downtime_start existing < Downtime.downtime_end new →
     Downtime.downtime_start new < Downtime.downtime_end existing →
     Downtime.report cfg now new led = (Raise ValidationError, led)) ∧
  no_overlapping_pair (Downtime.downtimes led).
Proof.
  intros Hreach. split.
  - intros now new existing Hin Hpkg Hlt1 Hlt2. unfold Downtime.report.
    by rewrite (clean_overlap cfg now _ new existing).
  - by apply pairwise_disjoint_no_overlapping_pair, (reachable_pairwise_disjoint cfg).
Qed.

Lemma overlapping_downtime_rejected_witness :
  Downtime.report Fixture.the_settings Fixture.frozen_now
                  (Fixture.downtime 2018 10 1 2018 10 20) Fixture.validation_ledger
    = (Raise ValidationError, Fixture.validation_ledger) ∧
  no_overlapping_pair (Downtime.downtimes Fixture.validation_ledger).
Proof.
  assert (Downtime.reachable Fixture.the_settings Fixture.validation_ledger) as Hreach.
  { apply (Downtime.reachable_report _ Fixture.frozen_now
             (Fixture.downtime 2018 10 5 2018 10 15) Fixture.the_ledger).
    - apply Downtime.reachable_init.
    - vm_compute. reflexivity. }
  destruct (overlapping_downtime_rejected Fixture.the_settings Fixture.validation_ledger
              Hreach) as [Hreject Hdisjoint].
  split; [|exact Hdisjoint].
  apply (Hreject _ _ (Fixture.downtime 2018 10 5 2018 10 15)).
  - apply list_elem_of_here.
  - reflexivity.
  - vm_compute. reflexivity.
  - vm_compute. reflexivity.
Defined.

(** The four overlap patterns of [DowntimeValidationTest] are rejected and
    the disjoint window of [test_positive] is accepted. *)
Example test_validate_intersection :
  let clean_ s e := Downtime.clean Fixture.the_settings Fixture.frozen_now
                      (Downtime.downtimes Fixture.validation_ledger)
                      (Fixture.downtime 2018 10 s 2018 10 e) in
  clean_ 1 20 = Raise ValidationError ∧
  clean_ 7 10 = Raise ValidationError ∧
  clean_ 1 10 = Raise ValidationError ∧
  clean_ 10 20 = Raise ValidationError ∧
  clean_ 17 20 = Ok ().
Proof. vm_compute. repeat split. Qed.

(** ** Compensation engine *)

Section Compensation.
Import Downtime.











End Compensation.



(** The four adjustment tests: the entry made for a downtime around,
    inside, at the start and at the end of the item's window of October
    11 to 15, with the negated price of 3 per day. *)
Example test_downtime_adjustment :
  let entry y1 m1 d1 y2 m2 d2 :=
    (λ g, (daily_price (Downtime.generic_item_base g),
           start (Downtime.generic_item_base g),
           end_ (Downtime.generic_item_base g)))
      <$> Downtime.generic_items
            (snd (Downtime.report Fixture.the_settings Fixture.frozen_now
                    (Fixture.downtime y1 m1 d1 y2 m2 d2) Fixture.the_ledger)) in
  entry 2018 10 1 2018 10 20
    = [((- Decimal_of_int 3)%Qc, midnight 2018 10 11, midnight 2018 10 15)] ∧
  entry 2018 10 12 2018 10 14
    = [((- Decimal_of_int 3)%Qc, midnight 2018 10 12, midnight 2018 10 14)] ∧
  entry 2018 10 1 2018 10 12
    = [((- Decimal_of_int 3)%Qc, midnight 2018 10 11, midnight 2018 10 12)] ∧
  entry 2018 10 12 2018 10 20
    = [((- Decimal_of_int 3)%Qc, midnight 2018 10 12, midnight 2018 10 15)].
Proof. repeat split. Qed.

(** The order of the rows does not decide whether a downtime is
    compensated: with an earlier item of the same package in the table,
    before or after the item of October 11 to 15, the downtime of October
    12 to 14 gets its entry for the item it lies in. *)
Example test_downtime_in_later_item :
  let entries items :=
    (λ g, (start (Downtime.generic_item_base g), end_ (Downtime.generic_item_base g)))
      <$> Downtime.generic_items
            (snd (Downtime.report Fixture.the_settings Fixture.frozen_now
                    (Fixture.downtime 2018 10 12 2018 10 14)
                    (Downtime.mkLedger
                       (mkDB [Fixture.the_invoice] items [Fixture.the_offering_item])
                       [] []))) in
  entries [Fixture.the_earlier_item; Fixture.the_item]
    = [(midnight 2018 10 12, midnight 2018 10 14)] ∧
  entries [Fixture.the_item; Fixture.the_earlier_item]
    = [(midnight 2018 10 12, midnight 2018 10 14)].
Proof. repeat split. Qed.



(** * Further properties of the models *)

(** ** [Invoice.freeze] *)

Section RowLoops.
Context {R : Type} (pk : R → Z) (step : R → R → R).
Hypothesis step_pk : ∀ item row, pk (step item row) = pk row.

(** One iteration of a loop whose body saves columns of [item]: what it
    does to one row. *)
Let row_step (row item : R) : R :=
  if decide (pk row = pk item) then step item row else row.

Lemma loop_rows (items tbl : list R) :
  fold_left (λ tbl item, ORM.update_row pk (pk item) (step item) tbl) items tbl
  = (λ row, fold_left row_step items row) <$> tbl.
Proof.
  revert tbl. induction items as [|item items IH]; intros tbl; simpl.
  - by rewrite list_fmap_id.
  - rewrite IH. unfold ORM.update_row. rewrite <- list_fmap_compose. done.
Qed.

Lemma loop_row_pk (items : list R) (row : R) :
  pk (fold_left row_step items row) = pk row.
Proof.
  revert row. induction items as [|item items IH]; intros row; simpl; [done|].
  rewrite IH. unfold row_step. case_decide; [apply step_pk | done].
Qed.

Lemma loop_row_untouched (items : list R) (row : R) :
  (∀ item, item ∈ items → pk item ≠ pk row) → fold_left row_step items row = row.
Proof.
  revert row. induction items as [|item items IH]; intros row Hother; simpl; [done|].
  unfold row_step at 2. rewrite decide_False.
  - apply IH. intros item' Hin. apply Hother. by apply list_elem_of_further.
  - intros Heq. by apply (Hother item); [apply list_elem_of_here|].
Qed.

Lemma loop_row_touched (items : list R) (row : R) :
  NoDup (pk <$> items) → row ∈ items → fold_left row_step items row = step row row.
Proof.
  induction items as [|item items IH]; intros Hnodup Hin; [by apply elem_of_nil in Hin|].
  rewrite fmap_cons in Hnodup. apply NoDup_cons in Hnodup as [Hfresh Hnodup].
  apply elem_of_cons in Hin as [->|Hin]; simpl.
  - unfold row_step at 2. rewrite decide_True by done.
    apply loop_row_untouched. intros item' Hin' Heq. apply Hfresh.
    rewrite step_pk in Heq. rewrite <- Heq. by apply list_elem_of_fmap_2.
  - unfold row_step at 2. rewrite decide_False; [by apply IH|].
    intros Heq. apply Hfresh. rewrite <- Heq. by apply list_elem_of_fmap_2.
Qed.

Lemma NoDup_fmap_filter (P : R → Prop) `{∀ x, Decision (P x)} (tbl : list R) :
  NoDup (pk <$> tbl) → NoDup (pk <$> filter P tbl).
Proof.
  induction tbl as [|row tbl IH]; [done|].
  rewrite fmap_cons. intros [Hfresh Hnodup]%NoDup_cons.
  rewrite filter_cons. case_decide; [|by apply IH].
  rewrite fmap_cons. apply NoDup_cons. split; [|by apply IH].
  intros (row' & Heq & Hin%list_elem_of_filter)%list_elem_of_fmap.
  apply Hfresh. rewrite Heq. apply list_elem_of_fmap_2. by destruct Hin.
Qed.

Lemma NoDup_same_key (tbl : list R) (x y : R) :
  NoDup (pk <$> tbl) → x ∈ tbl → y ∈ tbl → pk x = pk y → x = y.
Proof.
  induction tbl as [|row tbl IH]; intros Hnodup Hx Hy Heq; [by apply elem_of_nil in Hx|].
  rewrite fmap_cons in Hnodup. apply NoDup_cons in Hnodup as [Hfresh Hnodup].
  apply elem_of_cons in Hx as [->|Hx]; apply elem_of_cons in Hy as [->|Hy].
  - done.
  - destruct Hfresh. rewrite Heq. by apply list_elem_of_fmap_2.
  - destruct Hfresh. rewrite <- Heq. by apply list_elem_of_fmap_2.
  - by apply IH.
Qed.

(** A loop over the rows selected by [P], each saved under its own key,
    rewrites exactly the selected rows, each from itself. *)
Lemma loop_over_selection (P : R → Prop) `{∀ x, Decision (P x)} (tbl : list R) :
  NoDup (pk <$> tbl) →
  fold_left (λ tbl item, ORM.update_row pk (pk item) (step item) tbl) (filter P tbl) tbl
  = (λ row, if decide (P row) then step row row else row) <$> tbl.
Proof.
  intros Hnodup. rewrite loop_rows. apply list_fmap_ext. intros i row Hrow.
  assert (row ∈ tbl) as Hin by (apply list_elem_of_lookup; eauto).
  case_decide as HP.
  - apply loop_row_touched; [by apply NoDup_fmap_filter|].
    by apply list_elem_of_filter.
  - apply loop_row_untouched. intros item [HPitem Hitem]%list_elem_of_filter Heq.
    apply HP. by rewrite <- (NoDup_same_key tbl item row).
Qed.

End RowLoops.

Lemma update_row_identity {R} (pk : R → Z) (key : Z) (tbl : list R) :
  ORM.update_row pk key (λ row, row) tbl = tbl.
Proof.
  unfold ORM.update_row. rewrite <- (list_fmap_id tbl) at 2.
  apply list_fmap_ext. intros i row _. by case_decide.
Qed.

Lemma filter_fmap_key {R} (fk : R → Z) (key : Z) (g : R → R) (tbl : list R) :
  (∀ row, fk (g row) = fk row) →
  filter (λ row, fk row = key) (g <$> tbl) = g <$> filter (λ row, fk row = key) tbl.
Proof.
  intros Hfk. induction tbl as [|row tbl IH]; [done|].
  rewrite fmap_cons, !filter_cons, Hfk. case_decide; [|done].
  by rewrite fmap_cons, IH.
Qed.

Section FreezeAll.
Variable self : Invoice.
Variable db : DB.

(** What saving the frozen [item] writes into a row with its key. *)
Let openstack_step (item row : OpenStackItem) : OpenStackItem :=
  match package item with
  | Some _ => set_package_details (package_details (fst (OpenStackItem_freeze item db))) row
  | None => row
  end.

Let offering_step (item row : OfferingItem) : OfferingItem :=
  match offering item with
  | Some _ => set_offering_details (offering_details (fst (OfferingItem_freeze item db))) row
  | None => row
  end.

Lemma openstack_step_id (item row : OpenStackItem) :
  openstack_item_id (openstack_step item row) = openstack_item_id row.
Proof. unfold openstack_step. by destruct (package item). Qed.

Lemma offering_step_id (item row : OfferingItem) :
  offering_item_id (offering_step item row) = offering_item_id row.
Proof. unfold offering_step. by destruct (offering item). Qed.

Lemma openstack_step_self (row : OpenStackItem) :
  openstack_step row row = fst (OpenStackItem_freeze row db).
Proof.
  unfold openstack_step, OpenStackItem_freeze. by destruct (package row), row.
Qed.

Lemma offering_step_self (row : OfferingItem) :
  offering_step row row = fst (OfferingItem_freeze row db).
Proof.
  unfold offering_step, OfferingItem_freeze. by destruct (offering row), row.
Qed.

Lemma OpenStackItem_freeze_db (item : OpenStackItem) (d : DB) :
  snd (OpenStackItem_freeze item d) =
  set_openstack_item_table
    (ORM.update_row openstack_item_id (openstack_item_id item) (openstack_step item)
       (openstack_item_table d)) d.
Proof.
  unfold openstack_step. unfold OpenStackItem_freeze.
  destruct (package item); simpl.
  - done.
  - rewrite update_row_identity. by destruct d.
Qed.

Lemma OfferingItem_freeze_db (item : OfferingItem) (d : DB) :
  snd (OfferingItem_freeze item d) =
  set_offering_item_table
    (ORM.update_row offering_item_id (offering_item_id item) (offering_step item)
       (offering_item_table d)) d.
Proof.
  unfold offering_step. unfold OfferingItem_freeze.
  destruct (offering item); simpl.
  - done.
  - rewrite update_row_identity. by destruct d.
Qed.

Lemma OpenStackItem_freeze_loop (items : list OpenStackItem) (d : DB) :
  fold_left (λ d (item : OpenStackItem), snd (freeze item d)) items d =
  set_openstack_item_table
    (fold_left (λ tbl item,
                  ORM.update_row openstack_item_id (openstack_item_id item)
                                 (openstack_step item) tbl)
               items (openstack_item_table d)) d.
Proof.
  revert d. induction items as [|item items IH]; intros d; simpl.
  - by destruct d.
  - rewrite IH, OpenStackItem_freeze_db. done.
Qed.

Lemma OfferingItem_freeze_loop (items : list OfferingItem) (d : DB) :
  fold_left (λ d (item : OfferingItem), snd (freeze item d)) items d =
  set_offering_item_table
    (fold_left (λ tbl item,
                  ORM.update_row offering_item_id (offering_item_id item)
                                 (offering_step item) tbl)
               items (offering_item_table d)) d.
Proof.
  revert d. induction items as [|item items IH]; intros d; simpl.
  - by destruct d.
  - rewrite IH, OfferingItem_freeze_db. done.
Qed.

(** With unique keys, [Invoice.freeze] rewrites the rows of the invoice,
    each by its own [freeze], and nothing else. *)
Lemma Invoice_freeze_tables :
  unique_keys db →
  Invoice_freeze self db =
  mkDB (invoice_table db)
       ((λ row, if decide (openstack_item_invoice row = invoice_id self)
                then fst (OpenStackItem_freeze row db) else row)
          <$> openstack_item_table db)
       ((λ row, if decide (offering_item_invoice row = invoice_id self)
                then fst (OfferingItem_freeze row db) else row)
          <$> offering_item_table db).
Proof.
  intros [Hopenstack Hoffering]. unfold Invoice_freeze, openstack_items, offering_items.
  rewrite OpenStackItem_freeze_loop, OfferingItem_freeze_loop. simpl.
  rewrite (loop_over_selection openstack_item_id openstack_step openstack_step_id) by done.
  rewrite (loop_over_selection offering_item_id offering_step offering_step_id) by done.
  unfold set_offering_item_table, set_openstack_item_table. simpl. f_equal.
  - apply list_fmap_ext. intros i row _. case_decide; [apply openstack_step_self | done].
  - apply list_fmap_ext. intros i row _. case_decide; [apply offering_step_self | done].
Qed.

End FreezeAll.

Lemma OpenStackItem_freeze_invoice (row : OpenStackItem) (db : DB) :
  openstack_item_invoice (fst (OpenStackItem_freeze row db)) = openstack_item_invoice row
  ∧ openstack_item_id (fst (OpenStackItem_freeze row db)) = openstack_item_id row
  ∧ package (fst (OpenStackItem_freeze row db)) = package row.
Proof. unfold OpenStackItem_freeze. by destruct (package row) eqn:Hp. Qed.

Lemma OfferingItem_freeze_invoice (row : OfferingItem) (db : DB) :
  offering_item_invoice (fst (OfferingItem_freeze row db)) = offering_item_invoice row
  ∧ offering_item_id (fst (OfferingItem_freeze row db)) = offering_item_id row
  ∧ offering (fst (OfferingItem_freeze row db)) = offering row.
Proof. unfold OfferingItem_freeze. by destruct (offering row) eqn:Ho. Qed.

Lemma Invoice_freeze_openstack_items (self inv : Invoice) (db : DB) :
  unique_keys db →
  openstack_items inv (Invoice_freeze self db) =
  (λ row, if decide (openstack_item_invoice row = invoice_id self)
          then fst (OpenStackItem_freeze row db) else row) <$> openstack_items inv db.
Proof.
  intros Hkeys. rewrite Invoice_freeze_tables by done. unfold openstack_items. simpl.
  apply (filter_fmap_key openstack_item_invoice). intros row.
  case_decide; [apply OpenStackItem_freeze_invoice | done].
Qed.

Lemma Invoice_freeze_offering_items (self inv : Invoice) (db : DB) :
  unique_keys db →
  offering_items inv (Invoice_freeze self db) =
  (λ row, if decide (offering_item_invoice row = invoice_id self)
          then fst (OfferingItem_freeze row db) else row) <$> offering_items inv db.
Proof.
  intros Hkeys. rewrite Invoice_freeze_tables by done. unfold offering_items. simpl.
  apply (filter_fmap_key offering_item_invoice). intros row.
  case_decide; [apply OfferingItem_freeze_invoice | done].
Qed.

(** X1. With unique primary keys, after [Invoice.freeze] the items of the
    invoice, of both kinds, are its items from before, in the same order,
    each as its own [freeze] leaves it; so every one of them is frozen. *)
Theorem Invoice_freeze_freezes_items (self : Invoice) (db : DB) :
  unique_keys db →
  let db' := Invoice_freeze self db in
  openstack_items self db' = (λ row, fst (freeze row db)) <$> openstack_items self db ∧
  offering_items self db' = (λ row, fst (freeze row db)) <$> offering_items self db ∧
  Forall OpenStackItem_frozen (openstack_items self db') ∧
  Forall OfferingItem_frozen (offering_items self db').
Proof.
  intros Hkeys db'. subst db'.
  assert (openstack_items self (Invoice_freeze self db)
          = (λ row, fst (freeze row db)) <$> openstack_items self db) as Hopenstack.
  { rewrite Invoice_freeze_openstack_items by done. apply list_fmap_ext.
    intros i row Hrow. rewrite decide_True; [done|].
    assert (row ∈ openstack_items self db) as Hin by (apply list_elem_of_lookup; eauto).
    by apply list_elem_of_filter in Hin as [? _]. }
  assert (offering_items self (Invoice_freeze self db)
          = (λ row, fst (freeze row db)) <$> offering_items self db) as Hoffering.
  { rewrite Invoice_freeze_offering_items by done. apply list_fmap_ext.
    intros i row Hrow. rewrite decide_True; [done|].
    assert (row ∈ offering_items self db) as Hin by (apply list_elem_of_lookup; eauto).
    by apply list_elem_of_filter in Hin as [? _]. }
  split; [done|]. split; [done|]. rewrite Hopenstack, Hoffering. split.
  - apply Forall_fmap, Forall_forall. intros row _. apply OpenStackItem_frozen_freeze.
  - apply Forall_fmap, Forall_forall. intros row _. apply OfferingItem_frozen_freeze.
Qed.

Lemma Invoice_freeze_freezes_items_witness :
  unique_keys Fixture.the_db ∧
  openstack_items Fixture.the_invoice (Invoice_freeze Fixture.the_invoice Fixture.the_db)
    = [fst (freeze Fixture.the_item Fixture.the_db)] ∧
  Forall OfferingItem_frozen
    (offering_items Fixture.the_invoice (Invoice_freeze Fixture.the_invoice Fixture.the_db)).
Proof.
  assert (unique_keys Fixture.the_db) as Hkeys.
  { split; simpl; apply NoDup_singleton. }
  destruct (Invoice_freeze_freezes_items Fixture.the_invoice Fixture.the_db Hkeys)
    as (Hopenstack & _ & _ & Hfrozen).
  split; [exact Hkeys|]. split; [exact Hopenstack | exact Hfrozen].
Defined.

Lemma OpenStackItem_freeze_price (row : OpenStackItem) (db : DB) :
  price (fst (OpenStackItem_freeze row db)) = price row.
Proof. unfold price, usage_days. simpl. by rewrite OpenStackItem_freeze_base. Qed.

Lemma OfferingItem_freeze_price (row : OfferingItem) (db : DB) :
  price (fst (OfferingItem_freeze row db)) = price row.
Proof. unfold price, usage_days. simpl. by rewrite OfferingItem_freeze_base. Qed.

Lemma Invoice_price_prices (inv : Invoice) (db : DB) :
  Invoice_price inv db =
  sum ((price <$> openstack_items inv db) ++ (price <$> offering_items inv db)).
Proof. unfold Invoice_price. by rewrite fmap_app, <- !list_fmap_compose. Qed.

Lemma Invoice_freeze_unique_keys (self : Invoice) (db : DB) :
  unique_keys db → unique_keys (Invoice_freeze self db).
Proof.
  intros Hkeys. rewrite Invoice_freeze_tables by done.
  destruct Hkeys as [Hopenstack Hoffering].
  split; simpl; rewrite <- list_fmap_compose.
  - erewrite list_fmap_ext; [exact Hopenstack|]. intros i row _. simpl.
    case_decide; [apply OpenStackItem_freeze_invoice | done].
  - erewrite list_fmap_ext; [exact Hoffering|]. intros i row _. simpl.
    case_decide; [apply OfferingItem_freeze_invoice | done].
Qed.

(** X2. With unique primary keys, [Invoice.freeze] writes nothing but the
    details of the invoice's own items: the invoice table is as before,
    the items of every other invoice are as before, the keys of the item
    tables are as before, and the price, tax and total of every invoice,
    the frozen one included, are as before. *)
Theorem Invoice_freeze_frame (self : Invoice) (db : DB) :
  unique_keys db →
  let db' := Invoice_freeze self db in
  invoice_table db' = invoice_table db ∧
  unique_keys db' ∧
  (∀ other, invoice_id other ≠ invoice_id self →
     openstack_items other db' = openstack_items other db ∧
     offering_items other db' = offering_items other db) ∧
  (∀ inv, Invoice_price inv db' = Invoice_price inv db ∧
          Invoice_tax inv db' = Invoice_tax inv db ∧
          Invoice_total inv db' = Invoice_total inv db).
Proof.
  intros Hkeys db'. subst db'.
  assert (∀ inv, Invoice_price inv (Invoice_freeze self db) = Invoice_price inv db) as Hprice.
  { intros inv. rewrite !Invoice_price_prices.
    rewrite Invoice_freeze_openstack_items, Invoice_freeze_offering_items by done.
    rewrite <- !list_fmap_compose. f_equal; f_equal.
    - apply list_fmap_ext. intros i row _. simpl.
      case_decide; [apply OpenStackItem_freeze_price | done].
    - apply list_fmap_ext. intros i row _. simpl.
      case_decide; [apply OfferingItem_freeze_price | done]. }
  split; [by rewrite Invoice_freeze_tables|]. split; [|split].
  - by apply Invoice_freeze_unique_keys.
  - intros other Hother.
    rewrite Invoice_freeze_openstack_items, Invoice_freeze_offering_items by done.
    split.
    + rewrite <- (list_fmap_id (openstack_items other db)) at 2.
      apply list_fmap_ext. intros i row Hrow.
      assert (row ∈ openstack_items other db) as Hin by (apply list_elem_of_lookup; eauto).
      apply list_elem_of_filter in Hin as [Hfk _]. rewrite decide_False; [done|congruence].
    + rewrite <- (list_fmap_id (offering_items other db)) at 2.
      apply list_fmap_ext. intros i row Hrow.
      assert (row ∈ offering_items other db) as Hin by (apply list_elem_of_lookup; eauto).
      apply list_elem_of_filter in Hin as [Hfk _]. rewrite decide_False; [done|congruence].
  - intros inv. unfold Invoice_total, Invoice_tax. by rewrite Hprice.
Qed.

Lemma Invoice_freeze_frame_witness :
  let db' := Invoice_freeze Fixture.the_invoice Fixture.the_db in
  invoice_table db' = [Fixture.the_invoice] ∧
  Invoice_price Fixture.the_invoice db' = Invoice_price Fixture.the_invoice Fixture.the_db.
Proof.
  assert (unique_keys Fixture.the_db) as Hkeys.
  { split; simpl; apply NoDup_singleton. }
  destruct (Invoice_freeze_frame Fixture.the_invoice Fixture.the_db Hkeys)
    as (Hinvoices & _ & _ & Hprices).
  split; [exact Hinvoices|]. exact (proj1 (Hprices Fixture.the_invoice)).
Defined.

Lemma OpenStackItem_freeze_twice (row : OpenStackItem) (d1 d2 : DB) :
  fst (OpenStackItem_freeze (fst (OpenStackItem_freeze row d1)) d2)
  = fst (OpenStackItem_freeze row d1).
Proof.
  unfold OpenStackItem_freeze.
  destruct (package row) as [p|] eqn:Hp; simpl; rewrite Hp; [|done].
  simpl. by rewrite OpenStackItem_details_stable.
Qed.

Lemma OfferingItem_freeze_twice (row : OfferingItem) (d1 d2 : DB) :
  fst (OfferingItem_freeze (fst (OfferingItem_freeze row d1)) d2)
  = fst (OfferingItem_freeze row d1).
Proof.
  unfold OfferingItem_freeze.
  destruct (offering row) as [o|] eqn:Ho; simpl; rewrite Ho; [|done].
  simpl. by rewrite OfferingItem_details_stable.
Qed.

(** X3. With unique primary keys, [Invoice.freeze] is idempotent: a second
    run over the invoice leaves the database the first run produced. *)
Theorem Invoice_freeze_idempotent (self : Invoice) (db : DB) :
  unique_keys db →
  Invoice_freeze self (Invoice_freeze self db) = Invoice_freeze self db.
Proof.
  intros Hkeys.
  rewrite (Invoice_freeze_tables self (Invoice_freeze self db))
    by (by apply Invoice_freeze_unique_keys).
  rewrite !Invoice_freeze_tables by done. simpl. f_equal.
  - rewrite <- list_fmap_compose. apply list_fmap_ext. intros i row _. simpl.
    destruct (decide (openstack_item_invoice row = invoice_id self)) as [Hfk|Hfk].
    + rewrite decide_True by (by rewrite (proj1 (OpenStackItem_freeze_invoice row db))).
      apply OpenStackItem_freeze_twice.
    + by rewrite decide_False.
  - rewrite <- list_fmap_compose. apply list_fmap_ext. intros i row _. simpl.
    destruct (decide (offering_item_invoice row = invoice_id self)) as [Hfk|Hfk].
    + rewrite decide_True by (by rewrite (proj1 (OfferingItem_freeze_invoice row db))).
      apply OfferingItem_freeze_twice.
    + by rewrite decide_False.
Qed.

Lemma Invoice_freeze_idempotent_witness :
  Invoice_freeze Fixture.the_invoice (Invoice_freeze Fixture.the_invoice Fixture.the_db)
  = Invoice_freeze Fixture.the_invoice Fixture.the_db.
Proof.
  apply Invoice_freeze_idempotent. split; simpl; apply NoDup_singleton.
Defined.

(** ** Names of items *)

Lemma OfferingItem_frozen_details_nonempty (o : Offering) (d : gmap string string) :
  <["offering_type" := offering_type o]>
    (<["project_name" := project_name_of (offering_project o)]> d) ≠ ∅.
Proof. apply insert_non_empty. Qed.

(** X4. Freezing is what lets the name of an item outlive its source.
    For a package item with a live package, the name after [freeze] is
    the name before, and it stays so once the package reference is set to
    null.  For an offering item with a live offering, the name after
    [freeze] is the one formatted from the live offering, whatever
    reference the item holds afterwards, null included; it is the name
    from before when the item had no details yet. *)
Theorem name_survives_source (db : DB) :
  (∀ (self : OpenStackItem) p, package self = Some p →
     let frozen := fst (freeze self db) in
     OpenStackItem_name self
       = format_name (tenant_name (tenant p)) (template_name (template p)) ∧
     OpenStackItem_name frozen = OpenStackItem_name self ∧
     OpenStackItem_name (set_package None frozen) = OpenStackItem_name self) ∧
  (∀ (self : OfferingItem) o, offering self = Some o →
     let frozen := fst (freeze self db) in
     let live := Name (format_name (project_name_of (offering_project o)) (offering_type o)) in
     (∀ reference, OfferingItem_name (set_offering reference frozen) = live) ∧
     OfferingItem_name frozen = live ∧
     (offering_details self = ∅ → OfferingItem_name self = live)).
Proof.
  split.
  - intros self p Hp frozen. subst frozen. simpl.
    unfold OpenStackItem_name, OpenStackItem_freeze. rewrite Hp. simpl. rewrite Hp.
    split; [done|]. split; [done|]. simpl.
    by rewrite !lookup_insert.
  - intros self o Ho frozen live. subst frozen live. simpl.
    assert (∀ reference,
      OfferingItem_name (set_offering reference (fst (OfferingItem_freeze self db)))
      = Name (format_name (project_name_of (offering_project o)) (offering_type o)))
      as Hany.
    { intros reference. unfold OfferingItem_name, OfferingItem_freeze. rewrite Ho. simpl.
      rewrite decide_True by apply OfferingItem_frozen_details_nonempty.
      by rewrite !lookup_insert. }
    split; [exact Hany|]. split.
    + rewrite <- (Hany (offering (fst (OfferingItem_freeze self db)))).
      by destruct (fst (OfferingItem_freeze self db)).
    + intros Hempty. unfold OfferingItem_name. rewrite Hempty, Ho.
      by rewrite decide_False by (by intros []).
Qed.

Lemma name_survives_source_witness :
  OpenStackItem_name (set_package None (fst (freeze Fixture.the_item Fixture.the_db)))
    = "tenant (template)" ∧
  OfferingItem_name (set_offering None (fst (freeze Fixture.the_offering_item Fixture.the_db)))
    = Name "project (custom_vpc)".
Proof.
  destruct (name_survives_source Fixture.the_db) as [Hopenstack Hoffering]. split.
  - destruct (Hopenstack Fixture.the_item Fixture.the_package eq_refl) as (Hlive & _ & Hgone).
    rewrite Hgone, Hlive. reflexivity.
  - destruct (Hoffering Fixture.the_offering_item Fixture.the_offering eq_refl) as (Hany & _).
    rewrite Hany. reflexivity.
Defined.

(** X5. When a name cannot be formatted.  [OfferingItem.name] returns a
    string exactly when the details are not empty and hold both
    [project_name] and [offering_type], or the details are empty and the
    offering is live; with details that are not empty the live offering is
    never consulted, so a missing key raises [KeyError] even beside a live
    offering, and with empty details and no offering it raises on the
    attribute read.  [OpenStackItem.name] reads missing details with [get]
    and so formats [None] for them. *)
Theorem name_errors :
  (∀ self : OfferingItem,
     (∃ s, OfferingItem_name self = Name s) ↔
     (offering_details self ≠ ∅ ∧
      is_Some (offering_details self !! "project_name") ∧
      is_Some (offering_details self !! "offering_type")) ∨
     (offering_details self = ∅ ∧ is_Some (offering self))) ∧
  (∀ self : OfferingItem,
     offering_details self ≠ ∅ →
     (offering_details self !! "project_name" = None →
        OfferingItem_name self = NameRaise (KeyError "project_name")) ∧
     (is_Some (offering_details self !! "project_name") →
      offering_details self !! "offering_type" = None →
        OfferingItem_name self = NameRaise (KeyError "offering_type")) ∧
     (∀ reference, OfferingItem_name (set_offering reference self) = OfferingItem_name self)) ∧
  (∀ self : OfferingItem,
     offering_details self = ∅ → offering self = None →
     OfferingItem_name self = NameRaise AttributeError) ∧
  (∀ self : OpenStackItem,
     package self = None →
     package_details self !! "tenant_name" = None →
     package_details self !! "template_name" = None →
     OpenStackItem_name self = "None (None)").
Proof.
  split; [|split; [|split]].
  - intros self. unfold OfferingItem_name. split.
    + intros [s Hs]. case_decide as Hdetails.
      * left. split; [done|].
        destruct (offering_details self !! "project_name"); [|discriminate].
        destruct (offering_details self !! "offering_type"); [|discriminate].
        by split.
      * right. split.
        -- destruct (decide (offering_details self = ∅)); [done | by destruct Hdetails].
        -- by destruct (offering self).
    + intros [(Hdetails & [a Ha] & [b Hb])|[Hempty [o Ho]]].
      * rewrite decide_True, Ha, Hb by done. by eexists.
      * rewrite decide_False, Ho by (by rewrite Hempty; intros []). by eexists.
  - intros self Hdetails. unfold OfferingItem_name. simpl.
    rewrite !decide_True by done. split; [|split].
    + by intros ->.
    + by intros [a ->] ->.
    + intros reference. by rewrite decide_True.
  - intros self Hempty Hnone. unfold OfferingItem_name.
    by rewrite decide_False, Hnone by (by rewrite Hempty; intros []).
  - intros self Hnone Htenant Htemplate. unfold OpenStackItem_name.
    by rewrite Hnone, Htenant, Htemplate.
Qed.

Lemma name_errors_witness :
  OpenStackItem_name Fixture.the_orphan_item = "None (None)" ∧
  OfferingItem_name (set_offering None Fixture.the_offering_item) = NameRaise AttributeError.
Proof.
  destruct name_errors as (_ & _ & Hattribute & Hnone). split.
  - apply Hnone; reflexivity.
  - apply Hattribute; reflexivity.
Defined.

(** ** Registering an offering *)

Lemma auto_pk_fresh {R} (pk : R → Z) (tbl : list R) :
  ∀ row, row ∈ tbl → pk row < auto_pk pk tbl.
Proof.
  unfold auto_pk. induction tbl as [|r tbl IH]; intros row Hin.
  - by apply elem_of_nil in Hin.
  - rewrite fmap_cons.
    change (foldr Z.max 0 (pk r :: (pk <$> tbl)))
      with (Z.max (pk r) (foldr Z.max 0 (pk <$> tbl))).
    apply elem_of_cons in Hin as [->|Hin].
    + lia.
    + specialize (IH row Hin). lia.
Qed.

(** X6. [register_offering] appends one offering item and writes nothing
    else, whatever the state of the invoice: the item is priced at the
    offering's price per day, runs from the given start (the current time
    when none is given) to the end of that start's month, points to the
    offering, has no details yet and a key no row had; the price of the
    invoice grows by the price of that item, added to it as Python adds
    decimals, which is the exact sum when that fits the precision; the
    items and price of every other invoice stay as they were, and unique
    keys stay unique. *)
Theorem register_offering_adds_item (month_end : datetime → datetime)
    (offering_ : Offering) (start_ : option datetime) (now : datetime)
    (self : Invoice) (db : DB) :
  let db' := register_offering month_end offering_ start_ now self db in
  ∃ item,
    offering_item_table db' = offering_item_table db ++ [item] ∧
    offering_items self db' = offering_items self db ++ [item] ∧
    daily_price (base item) = offering_price offering_ ∧
    start (base item) = default now start_ ∧
    end_ (base item) = month_end (default now start_) ∧
    offering item = Some offering_ ∧
    offering_details item = ∅ ∧
    (offering_item_id item ∉ (offering_item_id <$> offering_item_table db)) ∧
    Invoice_price self db' = Dec.add (Invoice_price self db) (price item) ∧
    (Dec.fits (Invoice_price self db + price item)%Qc →
     Invoice_price self db' = (Invoice_price self db + price item)%Qc) ∧
    (∀ other, invoice_id other ≠ invoice_id self →
       offering_items other db' = offering_items other db ∧
       Invoice_price other db' = Invoice_price other db) ∧
    openstack_item_table db' = openstack_item_table db ∧
    invoice_table db' = invoice_table db ∧
    (unique_keys db → unique_keys db').
Proof.
  intros db'. subst db'. unfold register_offering.
  set (item := mkOfferingItem _ _ _ _ _). exists item. simpl.
  assert (offering_item_id item ∉ (offering_item_id <$> offering_item_table db)) as Hfresh.
  { intros (row & Heq & Hin)%list_elem_of_fmap.
    pose proof (auto_pk_fresh offering_item_id _ row Hin) as Hlt.
    subst item. simpl in Heq. lia. }
  assert (offering_items self
            (set_offering_item_table (offering_item_table db ++ [item]) db)
          = offering_items self db ++ [item]) as Hitems.
  { unfold offering_items. simpl. rewrite filter_app, filter_cons.
    by rewrite decide_True by done. }
  assert (∀ other, invoice_id other ≠ invoice_id self →
            offering_items other
              (set_offering_item_table (offering_item_table db ++ [item]) db)
            = offering_items other db) as Hother.
  { intros other Hne. unfold offering_items. simpl. rewrite filter_app, filter_cons.
    rewrite decide_False by (subst item; simpl; congruence).
    by rewrite filter_nil, app_nil_r. }
  repeat split; try done.
  - rewrite !Invoice_price_prices, Hitems, fmap_app.
    change (price <$> [item]) with [price item]. by rewrite app_assoc, sum_snoc.
  - intros Hfits. rewrite <- (round_fits _ Hfits).
    rewrite !Invoice_price_prices, Hitems, fmap_app.
    change (price <$> [item]) with [price item]. by rewrite app_assoc, sum_snoc.
  - by apply Hother.
  - rewrite !Invoice_price_prices, Hother by done. done.
  - by destruct H.
  - destruct H as [_ Hoffering]. simpl. rewrite fmap_app. apply NoDup_app.
    split; [done|]. split; [|apply NoDup_singleton].
    intros key Hkey Hitem. apply list_elem_of_singleton in Hitem as ->. by apply Hfresh.
Qed.

Lemma register_offering_adds_item_witness :
  let db' := register_offering (λ _, midnight 2018 11 1) Fixture.the_offering
               (Some (midnight 2018 10 21)) Fixture.frozen_now
               Fixture.the_invoice Fixture.the_db in
  unique_keys db' ∧
  Invoice_price Fixture.the_invoice db' =
    Dec.add (Invoice_price Fixture.the_invoice Fixture.the_db) (Q2Qc 110%Q) ∧
  Invoice_price Fixture.the_invoice db' = Q2Qc 422%Q.
Proof.
  destruct (register_offering_adds_item (λ _, midnight 2018 11 1) Fixture.the_offering
              (Some (midnight 2018 10 21)) Fixture.frozen_now
              Fixture.the_invoice Fixture.the_db)
    as (item & Htable & _ & Hdaily & Hstart & Hend & _ & _ & _ & Hprice & _ & _ & _ & _
        & Hkeys).
  assert (price item = Q2Qc 110%Q) as Hitem.
  { unfold price, usage_days. rewrite Hdaily, Hstart, Hend.
    apply Qc_is_canon. vm_compute. reflexivity. }
  split; [|split].
  - apply Hkeys. split; simpl; apply NoDup_singleton.
  - by rewrite Hprice, Hitem.
  - rewrite Hprice, Hitem. apply Qc_is_canon. vm_compute. reflexivity.
Defined.

(** ** The life cycle of an invoice, continued *)

Lemma set_created_rows (now : datetime) (self : Invoice) (db : DB) :
  state self = States.PENDING →
  set_created now self db =
  (if decide (Exists (λ row, invoice_id row = invoice_id self) (invoice_table db))
   then Ok () else Raise DatabaseError,
   (set_invoice_date (Some (date_of now)) (set_state States.CREATED self),
    set_invoice_table
      ((λ row, if decide (invoice_id row = invoice_id self)
               then set_invoice_date (Some (date_of now)) (set_state States.CREATED row)
               else row) <$> invoice_table db) db)).
Proof. intros Hstate. unfold set_created. by rewrite decide_False by (by intros []). Qed.

(** X7. An invoice that has no date has no due date.  When [set_created]
    is called at some moment on a pending invoice, it assigns the date:
    the due date of the object, and of every stored row of the invoice,
    is the day of that moment plus the payment interval; the call returns
    normally when the invoice has a stored row, and when it has none the
    save raises [DatabaseError], with the object already assigned and the
    database as it was.  When the call is refused because the invoice is
    not pending, it raises [IncorrectStateException] before anything is
    assigned: the due date of the object and the database are as they
    were. *)
Theorem due_date_after_set_created (PAYMENT_INTERVAL : Z) (now : datetime)
    (self : Invoice) (db : DB) :
  let r := set_created now self db in
  let stored := Exists (λ row, invoice_id row = invoice_id self) (invoice_table db) in
  (invoice_date self = None → due_date PAYMENT_INTERVAL self = None) ∧
  (state self = States.PENDING →
     due_date PAYMENT_INTERVAL (fst (snd r)) = Some (date_of now + PAYMENT_INTERVAL) ∧
     (∀ row, row ∈ invoice_table (snd (snd r)) → invoice_id row = invoice_id self →
        due_date PAYMENT_INTERVAL row = Some (date_of now + PAYMENT_INTERVAL)) ∧
     (stored → fst r = Ok ()) ∧
     (¬ stored → fst r = Raise DatabaseError ∧ snd (snd r) = db)) ∧
  (state self ≠ States.PENDING →
     fst r = Raise IncorrectStateException ∧
     due_date PAYMENT_INTERVAL (fst (snd r)) = due_date PAYMENT_INTERVAL self ∧
     snd (snd r) = db).
Proof.
  intros r stored. subst r stored. split; [|split].
  - unfold due_date. by intros ->.
  - intros Hstate. rewrite set_created_rows by done. simpl.
    split; [done|]. split; [|split].
    + intros row (row0 & -> & Hin)%list_elem_of_fmap Hid.
      destruct (decide (invoice_id row0 = invoice_id self)) as [_|Hne]; [done|].
      by destruct Hne.
    + intros Hstored. by rewrite decide_True.
    + intros Hstored. rewrite decide_False by done. split; [done|].
      assert ((λ row, if decide (invoice_id row = invoice_id self)
                      then set_invoice_date (Some (date_of now))
                             (set_state States.CREATED row)
                      else row) <$> invoice_table db = invoice_table db) as ->.
      { rewrite <- (list_fmap_id (invoice_table db)) at 2.
        apply list_fmap_ext. intros i row Hrow.
        destruct (decide (invoice_id row = invoice_id self)) as [Hid|_]; [|done].
        destruct Hstored. apply Exists_exists. exists row.
        split; [by eapply list_elem_of_lookup_2|done]. }
      by destruct db.
  - intros Hstate. unfold set_created. by rewrite decide_True.
Qed.

Lemma due_date_after_set_created_witness :
  due_date 30 Fixture.the_invoice = None ∧
  due_date 30 (fst (snd (set_created Fixture.frozen_now Fixture.the_invoice Fixture.the_db)))
    = Some (days_from_civil 2018 12 1) ∧
  fst (set_created Fixture.frozen_now Fixture.the_invoice Fixture.the_db) = Ok () ∧
  fst (set_created Fixture.frozen_now Fixture.the_invoice (mkDB [] [] []))
    = Raise DatabaseError ∧
  due_date 30 (fst (snd (set_created Fixture.frozen_now Fixture.the_invoice (mkDB [] [] []))))
    = Some (days_from_civil 2018 12 1).
Proof.
  destruct (due_date_after_set_created 30 Fixture.frozen_now Fixture.the_invoice
              Fixture.the_db) as (Hnone & Hcreated & _).
  destruct (due_date_after_set_created 30 Fixture.frozen_now Fixture.the_invoice
              (mkDB [] [] [])) as (_ & Hunsaved & _).
  destruct Hcreated as (Hdue & _ & Hok & _); [reflexivity|].
  destruct Hunsaved as (Hdue' & _ & _ & Hraise); [reflexivity|].
  split; [|split; [|split; [|split]]].
  - apply Hnone. reflexivity.
  - rewrite Hdue. reflexivity.
  - apply Hok. apply Exists_cons_hd. reflexivity.
  - apply Hraise. intros Hstored. inversion Hstored.
  - rewrite Hdue'. reflexivity.
Defined.

(** X8. [set_created] succeeds at most once and writes two columns.
    After a successful call, the object it returns and every stored row
    of the invoice refuse a further call, at any time and on any
    database; rows of other invoices are as before; every row keeps its
    key, month, year, customer and tax percent; the item tables are not
    written, so the price of every invoice is as before. *)
Theorem set_created_once (now : datetime) (self : Invoice) (db : DB) :
  state self = States.PENDING →
  let self' := fst (snd (set_created now self db)) in
  let db' := snd (snd (set_created now self db)) in
  (∀ later db2,
     set_created later self' db2 = (Raise IncorrectStateException, (self', db2))) ∧
  (∀ row, row ∈ invoice_table db' → invoice_id row = invoice_id self →
     ∀ later db2,
       set_created later row db2 = (Raise IncorrectStateException, (row, db2))) ∧
  Forall2 (λ row row',
             invoice_id row' = invoice_id row ∧ month row' = month row ∧
             year row' = year row ∧ customer row' = customer row ∧
             tax_percent row' = tax_percent row ∧
             (invoice_id row ≠ invoice_id self → row' = row))
          (invoice_table db) (invoice_table db') ∧
  openstack_item_table db' = openstack_item_table db ∧
  offering_item_table db' = offering_item_table db ∧
  (∀ inv, Invoice_price inv db' = Invoice_price inv db).
Proof.
  intros Hstate self' db'. subst self' db'. rewrite set_created_rows by done. simpl.
  split; [|split; [|split]].
  - intros later db2. unfold set_created. by rewrite decide_True.
  - intros row (row0 & -> & Hin)%list_elem_of_fmap Hid later db2.
    destruct (decide (invoice_id row0 = invoice_id self)) as [_|Hne]; [|by destruct Hne].
    unfold set_created. by rewrite decide_True.
  - apply Forall2_fmap_r, Forall_Forall2_diag, Forall_forall. intros row _. simpl.
    destruct (decide (invoice_id row = invoice_id self)); simpl; by repeat split.
  - done.
Qed.

Lemma set_created_once_witness :
  let r := set_created Fixture.frozen_now Fixture.the_invoice Fixture.the_db in
  fst (set_created (midnight 2018 12 1) (fst (snd r)) (snd (snd r)))
    = Raise IncorrectStateException ∧
  Invoice_price Fixture.the_invoice (snd (snd r))
    = Invoice_price Fixture.the_invoice Fixture.the_db.
Proof.
  destruct (set_created_once Fixture.frozen_now Fixture.the_invoice Fixture.the_db eq_refl)
    as (Hagain & _ & _ & _ & _ & Hprice).
  split.
  - by rewrite Hagain.
  - exact (Hprice Fixture.the_invoice).
Defined.

(** ** Windows of package items, continued *)

Lemma replace_hms_idempotent (dt : datetime) :
  replace_hms 23 59 59 (replace_hms 23 59 59 dt) = replace_hms 23 59 59 dt.
Proof.
  destruct (replace_hms_fields dt) as (_ & _ & _ & Hmicro & Hdate).
  cbv zeta in Hmicro, Hdate. unfold replace_hms at 1. by rewrite Hmicro, Hdate.
Qed.

Lemma upsert_row_again {R} (pk : R → Z) (obj : R) (tbl : list R) :
  ORM.upsert_row pk obj (ORM.upsert_row pk obj tbl) = ORM.upsert_row pk obj tbl.
Proof.
  assert (∀ t, Forall (λ row, pk row = pk obj → row = obj) t →
               ORM.update_row pk (pk obj) (λ _, obj) t = t) as Hfixed.
  { intros t Hall. unfold ORM.update_row. rewrite <- (list_fmap_id t) at 2.
    apply list_fmap_ext. intros i row Hrow. case_decide as Hpk; [|done].
    symmetry. apply (proj1 (Forall_forall _ _) Hall); [|done].
    apply list_elem_of_lookup. eauto. }
  destruct (decide (Exists (λ r, pk r = pk obj) tbl)) as [Hex|Hex].
  - assert (ORM.upsert_row pk obj tbl = ORM.update_row pk (pk obj) (λ _, obj) tbl) as ->
      by (unfold ORM.upsert_row; by rewrite decide_True).
    unfold ORM.upsert_row. rewrite decide_True.
    + apply Hfixed. unfold ORM.update_row. apply Forall_fmap, Forall_forall.
      intros row _. simpl. by case_decide.
    + apply Exists_exists in Hex as (row & Hin & Hpk). apply Exists_exists.
      exists obj. split; [|done]. unfold ORM.update_row. apply list_elem_of_fmap.
      exists row. by rewrite decide_True.
  - assert (ORM.upsert_row pk obj tbl = tbl ++ [obj]) as ->
      by (unfold ORM.upsert_row; by rewrite decide_False).
    unfold ORM.upsert_row. rewrite decide_True.
    + apply Hfixed. apply Forall_app. split; [|by apply Forall_singleton].
      apply Forall_forall. intros row Hin Hpk. destruct Hex.
      apply Exists_exists. by exists row.
    + apply Exists_exists. exists obj. split; [|done].
      apply elem_of_app. right. by apply list_elem_of_singleton.
Qed.

(** X9. [extend_to_the_end_of_the_day] moves the end of the item to
    23:59:59 of the same calendar day, keeping the microseconds: the end
    never moves backward and moves by less than a day, start and price per
    day are kept, the item is saved, and a second call changes neither
    the object nor the database. *)
Theorem extend_to_the_end_of_the_day_end (self : OpenStackItem) (db : DB) :
  let r := extend_to_the_end_of_the_day self db in
  let e := end_ (base (fst r)) in
  hour e = 23 ∧ minute e = 59 ∧ second e = 59 ∧
  microsecond e = microsecond (end_ (base self)) ∧
  date_of e = date_of (end_ (base self)) ∧
  end_ (base self) ≤ e < end_ (base self) + timedelta_of_days 1 ∧
  start (base (fst r)) = start (base self) ∧
  daily_price (base (fst r)) = daily_price (base self) ∧
  fst r ∈ openstack_item_table (snd r) ∧
  extend_to_the_end_of_the_day (fst r) (snd r) = r.
Proof.
  intros r e. subst r e. simpl.
  destruct (replace_hms_fields (end_ (openstack_item_base self)))
    as (Hhour & Hminute & Hsecond & Hmicro & Hdate).
  cbv zeta in *. repeat split; try done.
  - apply replace_hms_end_of_day_ge.
  - unfold date_of in Hdate. unfold timedelta_of_days.
    pose proof us_per_day_pos as Hpos.
    pose proof (Z.div_mod (replace_hms 23 59 59 (end_ (openstack_item_base self)))
                  us_per_day ltac:(lia)) as Hnew.
    pose proof (Z.mod_pos_bound (replace_hms 23 59 59 (end_ (openstack_item_base self)))
                  us_per_day Hpos) as Hnew_bound.
    pose proof (Z.div_mod (end_ (openstack_item_base self)) us_per_day ltac:(lia)) as Hold.
    pose proof (Z.mod_pos_bound (end_ (openstack_item_base self)) us_per_day Hpos)
      as Hold_bound.
    rewrite Hdate in Hnew. lia.
  - apply upsert_row_elem.
  - unfold extend_to_the_end_of_the_day. simpl. rewrite replace_hms_idempotent.
    unfold set_openstack_item_table. simpl. by rewrite upsert_row_again.
Qed.

Lemma days_minus_one_day (td : timedelta) : days (td - timedelta_of_days 1) = days td - 1.
Proof.
  unfold days, timedelta_of_days.
  replace (td - 1 * us_per_day) with (td + (-1) * us_per_day) by lia.
  rewrite Z.div_add by (pose proof us_per_day_pos; lia). lia.
Qed.

Lemma shift_backward_window (days_ : Z) (self : OpenStackItem) (db : DB) :
  end_ (base (fst (shift_backward days_ self db)))
    = (if decide (days (end_ (base self) - start (base self)) > days_)
       then end_ (base self) - timedelta_of_days 1 else start (base self)) ∧
  start (base (fst (shift_backward days_ self db))) = start (base self).
Proof. done. Qed.

Lemma shift_backward_zero_length (days_ : Z) (n : nat) (self : OpenStackItem) (db : DB) :
  0 ≤ days_ → end_ (base self) = start (base self) →
  let r := Nat.iter n (λ s, shift_backward days_ (fst s) (snd s)) (self, db) in
  end_ (base (fst r)) = start (base self) ∧ start (base (fst r)) = start (base self).
Proof.
  intros Hdays Hempty r. subst r. induction n as [|n IH]; [done|].
  rewrite Nat.iter_succ.
  destruct (Nat.iter n _ (self, db)) as [self1 db1] eqn:Hiter.
  destruct IH as [IHend IHstart]. cbn [fst snd] in *.
  destruct (shift_backward_window days_ self1 db1) as [Hend Hstart].
  rewrite Hend, Hstart, IHend, IHstart, Z.sub_diag.
  change (days 0) with 0. by rewrite decide_False by lia.
Qed.

Lemma shift_backward_exhausts (days_ : Z) (n : nat) :
  0 ≤ days_ →
  ∀ (self : OpenStackItem) (db : DB),
    start (base self) ≤ end_ (base self) →
    Z.of_nat n > Z.max 0 (days (end_ (base self) - start (base self)) - days_) →
    end_ (base (fst (Nat.iter n (λ s, shift_backward days_ (fst s) (snd s)) (self, db))))
    = start (base self).
Proof.
  intros Hdays. induction n as [|n IH]; intros self db Hwin Hn; [lia|].
  rewrite Nat.iter_succ_r. cbn [fst snd].
  destruct (shift_backward_window days_ self db) as [Hend Hstart].
  destruct (shift_backward days_ self db) as [self1 db1]. cbn [fst snd] in *.
  rewrite <- Hstart.
  destruct (decide (days (end_ (base self) - start (base self)) > days_)) as [Hspan|Hspan].
  - apply IH.
    + rewrite Hend, Hstart.
      assert (1 ≤ days (end_ (base self) - start (base self))) as Hone by lia.
      apply days_ge_1 in Hone. unfold timedelta_of_days. lia.
    + rewrite Hend, Hstart.
      replace (end_ (base self) - timedelta_of_days 1 - start (base self))
        with (end_ (base self) - start (base self) - timedelta_of_days 1) by lia.
      rewrite days_minus_one_day. lia.
  - apply (shift_backward_zero_length days_ n self1 db1); [done|]. by rewrite Hend.
Qed.

(** X10. On an item with start <= end and for a number of days that is
    not negative, [shift_backward] never lengthens the window: the new end
    lies between the start and the old end, and the whole-day span drops
    by exactly one when it exceeded the number of days and to zero
    otherwise.  Repeated, it empties the window: after more calls than the
    span exceeds the number of days, the end is the start. *)
Theorem shift_backward_shrinks (days_ : Z) (self : OpenStackItem) (db : DB) :
  0 ≤ days_ → start (base self) ≤ end_ (base self) →
  let r := shift_backward days_ self db in
  let span := days (end_ (base self) - start (base self)) in
  start (base self) ≤ end_ (base (fst r)) ≤ end_ (base self) ∧
  days (end_ (base (fst r)) - start (base self))
    = (if decide (span > days_) then span - 1 else 0) ∧
  (∀ n : nat, Z.of_nat n > Z.max 0 (span - days_) →
     end_ (base (fst (Nat.iter n (λ s, shift_backward days_ (fst s) (snd s)) (self, db))))
     = start (base self)).
Proof.
  intros Hdays Hwin r span. subst r span.
  destruct (shift_backward_window days_ self db) as [Hend _]. rewrite Hend.
  split; [|split].
  - case_decide as Hspan; [|lia].
    assert (1 ≤ days (end_ (base self) - start (base self))) as Hone by lia.
    apply days_ge_1 in Hone. pose proof us_per_day_pos. unfold timedelta_of_days. lia.
  - case_decide as Hspan.
    + replace (end_ (base self) - timedelta_of_days 1 - start (base self))
        with (end_ (base self) - start (base self) - timedelta_of_days 1) by lia.
      apply days_minus_one_day.
    + by rewrite Z.sub_diag.
  - intros n Hn. by apply shift_backward_exhausts.
Qed.

Lemma shift_backward_shrinks_witness :
  end_ (base (fst (Nat.iter 4 (λ s, shift_backward 1 (fst s) (snd s))
                            (Fixture.the_item, Fixture.the_db))))
  = midnight 2018 10 11.
Proof.
  destruct (shift_backward_shrinks 1 Fixture.the_item Fixture.the_db)
    as (_ & _ & Hexhaust); [lia | vm_compute; discriminate |].
  apply (Hexhaust 4%nat). vm_compute. reflexivity.
Defined.

(** ** What [terminate] writes *)

(** X11. [terminate] writes the [end] column and, through [freeze], the
    details of the rows that carry the key of the item, and nothing else:
    every row keeps its key, invoice, live reference, start, price per day
    and project columns, also when the object in memory holds other
    values; a row with another key is not touched; a row with the key of
    the item ends at the moment passed in (the current time when none is
    passed) and, when the item has a live reference, holds the details of
    the frozen item; the other tables are not written. *)
Theorem terminate_writes_end_and_details (end' : option datetime) (now : datetime)
    (db : DB) :
  (∀ self : OpenStackItem,
     let r := terminate end' now self db in
     Forall2 (λ row row',
                openstack_item_id row' = openstack_item_id row ∧
                openstack_item_invoice row' = openstack_item_invoice row ∧
                package row' = package row ∧
                set_end 0 (base row') = set_end 0 (base row) ∧
                (openstack_item_id row ≠ openstack_item_id self → row' = row) ∧
                (openstack_item_id row = openstack_item_id self →
                   end_ (base row') = default now end' ∧
                   (is_Some (package self) →
                      package_details row' = package_details (fst r)) ∧
                   (package self = None → package_details row' = package_details row)))
             (openstack_item_table db) (openstack_item_table (snd r)) ∧
     offering_item_table (snd r) = offering_item_table db ∧
     invoice_table (snd r) = invoice_table db) ∧
  (∀ self : OfferingItem,
     let r := terminate end' now self db in
     Forall2 (λ row row',
                offering_item_id row' = offering_item_id row ∧
                offering_item_invoice row' = offering_item_invoice row ∧
                offering row' = offering row ∧
                set_end 0 (base row') = set_end 0 (base row) ∧
                (offering_item_id row ≠ offering_item_id self → row' = row) ∧
                (offering_item_id row = offering_item_id self →
                   end_ (base row') = default now end' ∧
                   (is_Some (offering self) →
                      offering_details row' = offering_details (fst r)) ∧
                   (offering self = None → offering_details row' = offering_details row)))
             (offering_item_table db) (offering_item_table (snd r)) ∧
     openstack_item_table (snd r) = openstack_item_table db ∧
     invoice_table (snd r) = invoice_table db).
Proof.
  split; intros self r; subst r; rewrite terminate_unfold; simpl.
  - unfold OpenStackItem_freeze. destruct (package self) as [p|] eqn:Hp; simpl;
      (split; [|done]); unfold ORM.update_row.
    + rewrite <- list_fmap_compose.
      apply Forall2_fmap_r, Forall_Forall2_diag, Forall_forall. intros row _. simpl.
      destruct (decide (openstack_item_id row = openstack_item_id self)) as [Hid|Hid]; simpl.
      * rewrite decide_True by done. simpl. repeat split; try done; by intros [].
      * rewrite decide_False by done. by repeat split.
    + apply Forall2_fmap_r, Forall_Forall2_diag, Forall_forall. intros row _. simpl.
      destruct (decide (openstack_item_id row = openstack_item_id self)) as [Hid|Hid]; simpl.
      * repeat split; try done; by intros [? ?].
      * by repeat split.
  - unfold OfferingItem_freeze. destruct (offering self) as [o|] eqn:Ho; simpl;
      (split; [|done]); unfold ORM.update_row.
    + rewrite <- list_fmap_compose.
      apply Forall2_fmap_r, Forall_Forall2_diag, Forall_forall. intros row _. simpl.
      destruct (decide (offering_item_id row = offering_item_id self)) as [Hid|Hid]; simpl.
      * rewrite decide_True by done. simpl. repeat split; try done; by intros [].
      * rewrite decide_False by done. by repeat split.
    + apply Forall2_fmap_r, Forall_Forall2_diag, Forall_forall. intros row _. simpl.
      destruct (decide (offering_item_id row = offering_item_id self)) as [Hid|Hid]; simpl.
      * repeat split; try done; by intros [? ?].
      * by repeat split.
Qed.

Lemma terminate_writes_end_and_details_witness :
  (λ row, end_ (base row))
    <$> openstack_item_table
          (snd (terminate (Some (midnight 2018 10 13)) Fixture.frozen_now
                          Fixture.the_item Fixture.the_db))
  = [midnight 2018 10 13].
Proof.
  destruct (terminate_writes_end_and_details (Some (midnight 2018 10 13))
              Fixture.frozen_now Fixture.the_db) as [Hitem _].
  destruct (Hitem Fixture.the_item) as [Hrows _].
  change (openstack_item_table Fixture.the_db) with [Fixture.the_item] in Hrows.
  apply Forall2_cons_inv_l in Hrows as (row' & rest & Hrow & Hrest & ->).
  apply Forall2_nil_inv_l in Hrest as ->.
  destruct Hrow as (_ & _ & _ & _ & _ & Hsame).
  destruct (Hsame eq_refl) as [Hend _]. rewrite fmap_cons, Hend. reflexivity.
Defined.
